(** * Erros-Delivery: batch extraction pipeline and summary view

    A shallow embedding of the orchestration and aggregation code of the
    application: [extractOrdersFromPdf] (services/geminiService.ts),
    [handleFilesSelected] (App.tsx), [handleDrop] and [handleFileInput]
    (components/UploadZone.tsx), and the memoised derivations [allOrders],
    [filteredOrders] and [summaryStats] (components/ResultsTable.tsx). *)

From stdpp Require Import base strings list gmap fin_maps sorting pretty.

Open Scope string_scope.
Open Scope list_scope.

(** ** Data model (types.ts) *)

(** [platform: 'Glovo' | 'Uber Eats' | 'Bolt' | 'Unknown'] *)
Inductive Platform := Glovo | UberEats | Bolt | Unknown.

(** The string a [Platform] is at run time. *)
Definition platformName (p : Platform) : string :=
  match p with
  | Glovo => "Glovo"
  | UberEats => "Uber Eats"
  | Bolt => "Bolt"
  | Unknown => "Unknown"
  end.

#[global] Instance Platform_eq_dec : EqDecision Platform.
Proof. solve_decision. Defined.

Record OrderError := {
  orderNumber : string;
  restaurantName : string;
  date : string;
  time : string;
  customerName : string;
  platform : Platform
}.

#[global] Instance OrderError_eq_dec : EqDecision OrderError.
Proof. solve_decision. Defined.

(** [status: 'processing' | 'success' | 'error'] *)
Inductive FileStatus := processing | success | error.

#[global] Instance FileStatus_eq_dec : EqDecision FileStatus.
Proof. solve_decision. Defined.

Record ExtractedFileResult := {
  fileName : string;
  status : FileStatus;
  orders : list OrderError;
  errorMessage : option string
}.

Inductive ProcessingStatus := IDLE | PROCESSING | COMPLETED.

#[global] Instance ProcessingStatus_eq_dec : EqDecision ProcessingStatus.
Proof. solve_decision. Defined.

(** The two attributes of a DOM [File] the code reads, and its bytes. *)
Record File := {
  name : string;
  type : string;
  bytes : string
}.

(** A thrown JavaScript [Error]. *)
Record JsError := { message : string }.

(** One [console.error(label, cause)] call. *)
Record LogEntry := { label : string; cause : JsError }.

(** ** The machine the handlers run on

    [App] keeps three [useState] cells; the handlers also write to the
    console and talk to the outside world (file reader, remote model). Every
    call of a state setter is recorded in [history], oldest first, so that
    the states the component goes through can be inspected afterwards. *)

Record AppState := {
  appStatus : ProcessingStatus;   (* [status] *)
  results : list ExtractedFileResult;
  progress : string
}.

(** [useState] initial values of [App]. *)
Definition initialAppState : AppState :=
  {| appStatus := IDLE; results := []; progress := "" |}.

Record Machine (World : Type) := {
  app : AppState;
  history : list AppState;
  console : list LogEntry;
  world : World
}.
Arguments app {World} _.
Arguments history {World} _.
Arguments console {World} _.
Arguments world {World} _.

(** The page as first rendered: nothing has run yet. *)
Definition startup {World : Type} (w : World) : Machine World :=
  {| app := initialAppState; history := []; console := []; world := w |}.

(** State and exception monad of the handlers: a computation either returns a
    value or throws, and leaves a machine behind in both cases. *)
Definition M (World A : Type) : Type :=
  Machine World → (JsError + A) * Machine World.

Definition ret {W A} (a : A) : M W A := λ m, (inr a, m).

Definition bind {W A B} (c : M W A) (k : A → M W B) : M W B :=
  λ m, match c m with
       | (inr a, m') => k a m'
       | (inl e, m') => (inl e, m')
       end.

#[global] Instance M_ret {W} : MRet (M W) := @ret W.
#[global] Instance M_bind {W} : MBind (M W) := λ A B k c, bind c k.

Definition throw {W A} (e : JsError) : M W A := λ m, (inl e, m).

(** A call that returns or throws without touching the machine. *)
Definition fromResult {W A} (r : JsError + A) : M W A :=
  match r with
  | inl e => throw e
  | inr a => ret a
  end.

(** [try { body } catch (error) { handler error }] *)
Definition try_catch {W A} (body : M W A) (handler : JsError → M W A) : M W A :=
  λ m, match body m with
       | (inr a, m') => (inr a, m')
       | (inl e, m') => handler e m'
       end.

(** An awaited call into the outside world. *)
Definition external {W A} (f : W → (JsError + A) * W) : M W A :=
  λ m, let '(r, w') := f (world m) in
       (r, {| app := app m; history := history m; console := console m;
              world := w' |}).

Definition setApp {W} (f : AppState → AppState) : M W unit :=
  λ m, (inr tt, {| app := f (app m); history := history m ++ [f (app m)];
                   console := console m; world := world m |}).

Definition console_error {W} (l : string) (e : JsError) : M W unit :=
  λ m, (inr tt, {| app := app m; history := history m;
                   console := console m ++ [{| label := l; cause := e |}];
                   world := world m |}).

Definition setStatus {W} (v : ProcessingStatus) : M W unit :=
  setApp (λ s, {| appStatus := v; results := results s; progress := progress s |}).
Definition setResults {W} (v : list ExtractedFileResult) : M W unit :=
  setApp (λ s, {| appStatus := appStatus s; results := v; progress := progress s |}).
Definition setProgress {W} (v : string) : M W unit :=
  setApp (λ s, {| appStatus := appStatus s; results := results s; progress := v |}).

(** JavaScript truthiness of a possibly undefined string: [undefined] and the
    empty string are falsy. *)
Definition truthy (s : option string) : option string :=
  match s with
  | Some "" => None
  | other => other
  end.

(** ** services/geminiService.ts *)

Section geminiService.

Context {World Client : Type}.

(** [process.env.API_KEY] *)
Variable API_KEY : option string.
(** [new GoogleGenAI({ apiKey })] *)
Variable GoogleGenAI : string → JsError + Client.
(** [fileToBase64] of utils/fileHelpers.ts: reads the file. *)
Variable fileToBase64 : File → World → (JsError + string) * World.
(** [ai.models.generateContent], called on the encoded document with the
    fixed prompt, schema and configuration; the value returned is
    [response.text], which may be undefined. *)
Variable generateContent :
  Client → string → World → (JsError + option string) * World.
(** [JSON.parse(text) as OrderError[]] *)
Variable JSON_parse : string → JsError + list OrderError.

Definition extractOrdersFromPdf (file : File) : M World (list OrderError) :=
  try_catch
    (match truthy API_KEY with
     | None => throw {| message := "API Key is missing in environment variables." |}
     | Some apiKey =>
         ai ← fromResult (GoogleGenAI apiKey);
         base64Data ← external (fileToBase64 file);
         text ← external (generateContent ai base64Data);
         match truthy text with
         | None => mret []
         | Some text => fromResult (JSON_parse text)
         end
     end)
    (λ err,
       console_error "Gemini Extraction Error:" err;;
       throw err).

(** ** App.tsx *)

(** Template literal of the progress line. *)
Definition progressLabel (i n : nat) (file : File) : string :=
  "Analisando arquivo " +:+ pretty (i + 1) +:+ " de " +:+ pretty n +:+ ": "
    +:+ name file +:+ "...".

(** The [for] loop of [handleFilesSelected]: [rest] are the files from index
    [i] on, [n] is [files.length], [newResults] the array filled so far. *)
Fixpoint processFiles (n i : nat) (rest : list File)
    (newResults : list ExtractedFileResult) : M World (list ExtractedFileResult) :=
  match rest with
  | [] => mret newResults
  | file :: rest' =>
      setProgress (progressLabel i n file);;
      newResults' ←
        try_catch
          (orders ← extractOrdersFromPdf file;
           mret (newResults ++ [{| fileName := name file; status := success;
                                   orders := orders; errorMessage := None |}]))
          (λ err,
             let pushed :=
               newResults ++ [{| fileName := name file; status := error;
                                 orders := [];
                                 errorMessage := Some "Falha ao processar PDF" |}] in
             console_error ("Error processing " +:+ name file +:+ ":") err;;
             mret pushed);
      processFiles n (i + 1) rest' newResults'
  end.

Definition handleFilesSelected (files : list File) : M World unit :=
  setStatus PROCESSING;;
  setResults [];;
  newResults ← processFiles (length files) 0 files [];
  setResults newResults;;
  setStatus COMPLETED;;
  setProgress "".

End geminiService.

(** ** components/UploadZone.tsx *)

(** What a handler of the upload zone does, in the order it does it. *)
Inductive UploadEffect :=
  | PreventDefault
  | SetIsDragging (b : bool)
  | OnFilesSelected (files : list File)
  | Alert (msg : string).

(** [Array.from(files).filter(file => file.type === 'application/pdf')] *)
Definition validFiles (files : list File) : list File :=
  filter (λ file, type file = "application/pdf") files.

(** [files] is [e.dataTransfer.files], which may be null. *)
Definition handleDrop (isProcessing : bool) (files : option (list File))
    : list UploadEffect :=
  [PreventDefault; SetIsDragging false] ++
  (if isProcessing then []
   else match files with
        | Some files =>
            if bool_decide (0 < length files) then
              if bool_decide (0 < length (validFiles files))
              then [OnFilesSelected (validFiles files)]
              else [Alert "Por favor, envie apenas arquivos PDF."]
            else []
        | None => []
        end).

(** [files] is [e.target.files], which may be null. *)
Definition handleFileInput (files : option (list File)) : list UploadEffect :=
  match files with
  | Some files =>
      if bool_decide (0 < length files) then [OnFilesSelected (validFiles files)]
      else []
  | None => []
  end.

(** ** components/ResultsTable.tsx *)

(** [{ ...o, sourceFile: r.fileName }]: the six fields of [o] and the name of
    the file it came from. *)
Record SourcedOrder := {
  order :> OrderError;
  sourceFile : string
}.

#[global] Instance SourcedOrder_eq_dec : EqDecision SourcedOrder.
Proof. solve_decision. Defined.

Definition allOrders (results : list ExtractedFileResult) : list SourcedOrder :=
  if bool_decide (length results = 0) then []
  else results ≫= (λ r, (λ o, {| order := o; sourceFile := fileName r |}) <$> orders r).

(** [selectedRestaurants.includes(o.restaurantName)] decides membership. *)
Definition filteredOrders (allOrders : list SourcedOrder)
    (selectedRestaurants : list string) : list SourcedOrder :=
  if bool_decide (length selectedRestaurants = 0) then allOrders
  else filter (λ o : SourcedOrder, restaurantName o ∈ selectedRestaurants) allOrders.

(** [prev.includes(name) ? prev.filter(n => n !== name) : [...prev, name]] *)
Definition toggleRestaurant (name : string) (prev : list string) : list string :=
  if bool_decide (name ∈ prev) then filter (λ n, n ≠ name) prev
  else prev ++ [name].

(** A JavaScript [Set], in insertion order: [add] of a member does nothing. *)
Definition Set_add {A} `{EqDecision A} (s : list A) (x : A) : list A :=
  if bool_decide (x ∈ s) then s else s ++ [x].

(** [filteredOrders.forEach(o => detectedPlatforms.add(o.platform))] *)
Definition detectedPlatforms (filteredOrders : list SourcedOrder) : list Platform :=
  foldl (λ s (o : SourcedOrder), Set_add s (platform o)) [] filteredOrders.

Definition priority : list string := ["Uber Eats"; "Glovo"; "Bolt"].

(** [Array.prototype.indexOf], counting from [i]: -1 when absent. *)
Fixpoint indexOf_from (i : Z) (l : list string) (x : string) : Z :=
  match l with
  | [] => -1
  | y :: l' => if bool_decide (y = x) then i else indexOf_from (i + 1) l' x
  end.
Definition indexOf : list string → string → Z := indexOf_from 0.

(** [Array.prototype.sort(compare)] is a stable sort; here by insertion: each
    element goes before the first one already placed that must follow it. *)
Fixpoint sort_insert {A} (compare : A → A → Z) (x : A) (sorted : list A) : list A :=
  match sorted with
  | [] => [x]
  | y :: sorted' =>
      if bool_decide (0 < compare y x)%Z then x :: y :: sorted'
      else y :: sort_insert compare x sorted'
  end.
Definition Array_sort {A} (compare : A → A → Z) (l : list A) : list A :=
  foldl (λ sorted x, sort_insert compare x sorted) [] l.

(** A row of the summary, [RestaurantStats]: a number under ["total"] and
    under platform names. *)
Abbreviation RestaurantStats := (gmap string nat).

Record SummaryStats := {
  stats : gmap string RestaurantStats;
  platforms : list Platform
}.

(** [{ total: 0 }] followed by [sortedPlatforms.forEach(p => row[p] = 0)] *)
Definition newRow (sortedPlatforms : list Platform) : RestaurantStats :=
  foldl (λ row p, <[platformName p := 0]> row) {["total" := 0]} sortedPlatforms.

(** [if (row[plat] === undefined) row[plat] = 0; row[plat]++; row.total++] *)
Definition countOrder (plat : string) (row : RestaurantStats) : RestaurantStats :=
  let row := match row !! plat with
             | None => <[plat := 0]> row
             | Some _ => row
             end in
  alter S "total" (alter S plat row).

(** [stats] is created by the literal [{}], so [stats[rest]] is looked up in
    its own properties first and then in [Object.prototype]. The function
    valued properties every object inherits: *)
Definition Object_prototype_functions : list string :=
  ["constructor"; "__defineGetter__"; "__defineSetter__"; "hasOwnProperty";
   "__lookupGetter__"; "__lookupSetter__"; "isPrototypeOf";
   "propertyIsEnumerable"; "toString"; "valueOf"; "toLocaleString"].

(** The objects the counting loop can write to: the own properties of
    [stats], and the platform names under which it has stored a count on
    [Object.prototype] itself (reached as [stats["__proto__"]]). *)
Record Realm := {
  ownStats : gmap string RestaurantStats;
  prototypeCounts : list string
}.

(** A realm in which [Object.prototype] has only its built-in properties. *)
Definition freshRealm : Realm := {| ownStats := ∅; prototypeCounts := [] |}.

(** Assignment to a property of a number, in strict mode (module code); the
    wording of the message is the engine's. *)
Definition TypeError : JsError :=
  {| message := "TypeError: Cannot create property on number" |}.

(** Body of [filteredOrders.forEach(order => ...)] under "Populate counts".
    - an own row is counted in place;
    - [stats["__proto__"]] is [Object.prototype]: truthy, so no row is made
      and the counts are stored on [Object.prototype] ([total] there becomes
      NaN, which is falsy and so reads like a missing row later on);
    - an inherited function is truthy: no row is made, the counts are
      stored on that function and [stats] is left as it was;
    - a count inherited from [Object.prototype] is a truthy number, and the
      assignment to its property throws;
    - otherwise a row is created, zeroed and counted. *)
Definition populate (sortedPlatforms : list Platform) (h : Realm)
    (o : SourcedOrder) : JsError + Realm :=
  let rest := restaurantName o in
  let plat := platformName (platform o) in
  match ownStats h !! rest with
  | Some row =>
      inr {| ownStats := <[rest := countOrder plat row]> (ownStats h);
             prototypeCounts := prototypeCounts h |}
  | None =>
      if bool_decide (rest = "__proto__") then
        inr {| ownStats := ownStats h;
               prototypeCounts := Set_add (prototypeCounts h) plat |}
      else if bool_decide (rest ∈ Object_prototype_functions) then inr h
      else if bool_decide (rest ∈ prototypeCounts h) then inl TypeError
      else
        inr {| ownStats := <[rest := countOrder plat (newRow sortedPlatforms)]> (ownStats h);
               prototypeCounts := prototypeCounts h |}
  end.

(** [forEach] with a body that may throw. *)
Fixpoint forEach {S A} (body : S → A → JsError + S) (s : S) (l : list A)
    : JsError + S :=
  match l with
  | [] => inr s
  | x :: l' =>
      match body s x with
      | inl e => inl e
      | inr s' => forEach body s' l'
      end
  end.

Section summary.

(** [String.prototype.localeCompare], which the host provides. *)
Variable localeCompare : string → string → Z.

(** The comparison function passed to [sort]. *)
Definition comparePlatforms (a b : Platform) : Z :=
  let idxA := indexOf priority (platformName a) in
  let idxB := indexOf priority (platformName b) in
  (if bool_decide (idxA ≠ -1) && bool_decide (idxB ≠ -1) then idxA - idxB
   else if bool_decide (idxA ≠ -1) then -1
   else if bool_decide (idxB ≠ -1) then 1
   else localeCompare (platformName a) (platformName b))%Z.

Definition sortedPlatforms (filteredOrders : list SourcedOrder) : list Platform :=
  Array_sort comparePlatforms (detectedPlatforms filteredOrders).

(** The [useMemo] body of [summaryStats], run in [realm]. The source also
    computes [restaurantsToTrack] there and never reads it, so it has no
    counterpart here. *)
Definition summaryStats_in (realm : Realm) (filteredOrders : list SourcedOrder)
    : JsError + SummaryStats :=
  let sortedPlatforms := sortedPlatforms filteredOrders in
  match forEach (populate sortedPlatforms) realm filteredOrders with
  | inl e => inl e
  | inr h => inr {| stats := ownStats h; platforms := sortedPlatforms |}
  end.

Definition summaryStats : list SourcedOrder → JsError + SummaryStats :=
  summaryStats_in freshRealm.

End summary.

(** [Object.entries(summaryStats.stats)]: the rows of the summary table, one
    per own property of [stats] (listed here in no particular order), and the
    sum of their [total] cells. *)
Definition rows (s : SummaryStats) : list (string * RestaurantStats) :=
  map_to_list (stats s).
Definition rowTotal (row : RestaurantStats) : nat := default 0 (row !! "total").
Definition sumOfTotals (s : SummaryStats) : nat :=
  sum_list_with (λ r, rowTotal r.2) (rows s).

(** ** The rest of the components *)

(** *** App.tsx: what is rendered of a state

    The upload zone is told whether a batch is running, the progress line is
    shown while one is, and the results table is mounted once it has
    completed. *)
Record AppView := {
  isProcessing : bool;
  processingIndicator : option string;
  resultsTable : option (list ExtractedFileResult)
}.

Definition App_render (s : AppState) : AppView :=
  {| isProcessing := bool_decide (appStatus s = PROCESSING);
     processingIndicator :=
       if bool_decide (appStatus s = PROCESSING) then Some (progress s) else None;
     resultsTable :=
       if bool_decide (appStatus s = COMPLETED) then Some (results s) else None |}.


(** *** UploadZone.tsx: the other handlers *)

Definition handleDragOver (isProcessing : bool) : list UploadEffect :=
  [PreventDefault] ++ (if negb isProcessing then [SetIsDragging true] else []).

Definition handleDragLeave : list UploadEffect :=
  [PreventDefault; SetIsDragging false].

(** [handleClick]: whether the file dialog is opened. *)
Definition handleClick (isProcessing : bool) : bool := negb isProcessing.

(** The file list a handler hands to [onFilesSelected], if it calls it. *)
Definition filesHandedOver (effects : list UploadEffect) : option (list File) :=
  head (omap (λ e, match e with OnFilesSelected files => Some files | _ => None end)
          effects).

(** The notices a handler shows. *)
Definition alerts (effects : list UploadEffect) : list string :=
  omap (λ e, match e with Alert msg => Some msg | _ => None end) effects.

Section App.

Context {World Client : Type}.
Variable API_KEY : option string.
Variable GoogleGenAI : string → JsError + Client.
Variable fileToBase64 : File → World → (JsError + string) * World.
Variable generateContent :
  Client → string → World → (JsError + option string) * World.
Variable JSON_parse : string → JsError + list OrderError.

(** [<UploadZone onFilesSelected={handleFilesSelected}
    isProcessing={status === ProcessingStatus.PROCESSING} />]: a drop on the
    zone as [App] mounts it. *)
Definition App_drop (files : option (list File)) : M World unit :=
  λ m, match filesHandedOver
               (handleDrop (isProcessing (App_render (app m))) files) with
       | Some accepted =>
           handleFilesSelected API_KEY GoogleGenAI fileToBase64 generateContent
             JSON_parse accepted m
       | None => (inr tt, m)
       end.

End App.

(** *** ResultsTable.tsx: filter buttons, table body and export *)

Section restaurants.

(** The order of [sort()] called without a comparison function (strings by
    their UTF-16 code units). *)
Variable compareStrings : string → string → Z.

(** [Array.from(new Set(allOrders.map(o => o.restaurantName))).sort()] *)
Definition uniqueRestaurants (allOrders : list SourcedOrder) : list string :=
  Array_sort compareStrings
    (foldl (λ s (o : SourcedOrder), Set_add s (restaurantName o)) [] allOrders).

End restaurants.

(** The [tbody] of the main table: the rows, or the message shown instead. *)
Definition tableContents (allOrders filteredOrders : list SourcedOrder)
    : string + list SourcedOrder :=
  if bool_decide (0 < length filteredOrders) then inr filteredOrders
  else inl (if bool_decide (0 < length allOrders)
            then "Nenhum pedido encontrado para os filtros selecionados."
            else "Nenhum pedido encontrado nos documentos analisados.").

(** The "Total de Pedidos" card: the number shown, and the "de N" beside it
    when a filter is active. *)
Definition totalCard (allOrders filteredOrders : list SourcedOrder)
    (selectedRestaurants : list string) : nat * option nat :=
  (length filteredOrders,
   if bool_decide (0 < length selectedRestaurants) then Some (length allOrders)
   else None).

(** [s || dflt] on strings. *)
Definition orElse (s dflt : string) : string :=
  match s with
  | "" => dflt
  | _ => s
  end.

(** [handleDownloadPDF]: the [body] of the main table handed to [autoTable]. *)
Definition tableBody (filteredOrders : list SourcedOrder) : list (list string) :=
  (λ o : SourcedOrder,
     [platformName (platform o); orderNumber o; restaurantName o; date o;
      time o; orElse (customerName o) "N/A"]) <$> filteredOrders.

(** [[['Restaurante', ...summaryStats.platforms, 'Total']]] *)
Definition summaryHead (s : SummaryStats) : list string :=
  ["Restaurante"] ++ (platformName <$> platforms s) ++ ["Total"].

(** [String(n)] of a cell that may be missing; a count is written in decimal
    (counts stay far below the size at which [String] turns to exponents). *)
Definition String_of (cell : option nat) : string :=
  match cell with
  | Some n => pretty n
  | None => "undefined"
  end.

(** One row of [summaryBody]: the name, [String(stats[p] || 0)] for each
    platform in view, and [String(stats.total)]. *)
Definition summaryRow (s : SummaryStats) (restName : string)
    (data : RestaurantStats) : list string :=
  [restName]
  ++ ((λ p, pretty (default 0 (data !! platformName p))) <$> platforms s)
  ++ [String_of (data !! "total")].

Definition summaryBody (s : SummaryStats) : list (list string) :=
  (λ r, summaryRow s r.1 r.2) <$> rows s.

(** [selectedRestaurants.join(", ")] *)
Fixpoint join (sep : string) (l : list string) : string :=
  match l with
  | [] => ""
  | [x] => x
  | x :: l' => x +:+ sep +:+ join sep l'
  end.

(** The "Filtro: ..." line of the exported document, when there is one. *)
Definition filterLine (selectedRestaurants : list string) : option string :=
  if bool_decide (0 < length selectedRestaurants)
  then Some ("Filtro: " +:+ join ", " selectedRestaurants)
  else None.

(** ** Specification vocabulary *)

(** The outcome [handleFilesSelected] records for a file whose extraction
    call resolved with [orders], and the one it records when the call was
    rejected. *)
Definition successOutcome (file : File) (orders : list OrderError)
    : ExtractedFileResult :=
  {| fileName := name file; status := success; orders := orders;
     errorMessage := None |}.
Definition errorOutcome (file : File) : ExtractedFileResult :=
  {| fileName := name file; status := error; orders := [];
     errorMessage := Some "Falha ao processar PDF" |}.

(** The state shown while the file at index [i] of [n] is processed, in a
    batch that found the progress cell and results of [s]. *)
Definition progressState (s : AppState) (n i : nat) (file : File) : AppState :=
  {| appStatus := appStatus s; results := results s;
     progress := progressLabel i n file |}.

(** The machine on which the loop of a batch started on [m] begins. *)
Definition loopEntry {W} (m : Machine W) : Machine W :=
  ((setStatus PROCESSING;; setResults []) m).2.

(** A trace of states goes back to idle with no outcomes before it first
    shows the processing phase. *)
Definition resetsToIdle (trace : list AppState) : Prop :=
  ∃ pre st post,
    trace = pre ++ st :: post ∧ appStatus st = IDLE ∧ results st = [] ∧
    Forall (λ s, appStatus s ≠ PROCESSING) pre.

(** The records of one outcome, each with the name of its file. *)
Definition taggedOrders (r : ExtractedFileResult) : list SourcedOrder :=
  (λ o, {| order := o; sourceFile := fileName r |}) <$> orders r.

(** The platforms the type admits, in the order the summary shows them. *)
Definition displayOrder : list Platform := [UberEats; Glovo; Bolt; Unknown].

(** Position of a platform in [displayOrder]. *)
Definition rank (p : Platform) : nat :=
  match p with UberEats => 0 | Glovo => 1 | Bolt => 2 | Unknown => 3 end.
Definition before (a b : Platform) : Prop := rank a < rank b.

(** The names under which every object created by [{}] finds an inherited
    value. *)
Definition inheritedName (r : string) : Prop :=
  r = "__proto__" ∨ r ∈ Object_prototype_functions.

(** Sum of the [total] cells of the own rows of a stats object. *)
Definition totalOf (m : gmap string RestaurantStats) : nat :=
  sum_list_with (λ r, rowTotal r.2) (map_to_list m).

(** A realm in which exactly the records [seen] have been counted, all of
    them in own rows of [stats]. *)
Definition tallied (h : Realm) (seen : list SourcedOrder) : Prop :=
  prototypeCounts h = [] ∧
  (∀ r, is_Some (ownStats h !! r)
        ↔ r ∈ (λ o : SourcedOrder, restaurantName o) <$> seen) ∧
  (∀ r row, ownStats h !! r = Some row → is_Some (row !! "total")) ∧
  totalOf (ownStats h) = length seen.

(** The data-model invariant of outcomes: only a success carries records. *)
Definition emptyOnError (r : ExtractedFileResult) : Prop :=
  status r ≠ success → orders r = [].

(** The number of records of a restaurant, and of a restaurant on a
    platform. *)
Definition ordersOf (r : string) (l : list SourcedOrder) : nat :=
  length (filter (λ o : SourcedOrder, restaurantName o = r) l).
Definition ordersOn (r : string) (p : Platform) (l : list SourcedOrder) : nat :=
  length (filter (λ o : SourcedOrder, restaurantName o = r ∧ platform o = p) l).

(** A realm in which the records [seen] have been counted cell by cell in own
    rows of [stats], each row having a cell for ["total"] and for every
    platform of [sp] and no other. *)
Definition counted (sp : list Platform) (h : Realm) (seen : list SourcedOrder)
    : Prop :=
  prototypeCounts h = [] ∧
  ∀ r, match ownStats h !! r with
       | Some row =>
           0 < ordersOf r seen ∧
           row !! "total" = Some (ordersOf r seen) ∧
           (∀ p, p ∈ sp → row !! platformName p = Some (ordersOn r p seen)) ∧
           (∀ k, is_Some (row !! k) → k = "total" ∨ ∃ p, p ∈ sp ∧ k = platformName p)
       | None => ordersOf r seen = 0
       end.

(** ** Sample inputs

    The scenario of two reports, the second of which cannot be read, in a
    world without state of its own. *)

Module Sample.

Definition almada (n : string) (p : Platform) : OrderError :=
  {| orderNumber := n; restaurantName := "Almada Fórum"; date := "2026-01-14";
     time := "12:30"; customerName := "N/A"; platform := p |}.

Definition reportA : File :=
  {| name := "a.pdf"; type := "application/pdf"; bytes := "JVBERi0xLjQ=" |}.
Definition reportB : File :=
  {| name := "b.pdf"; type := "application/pdf"; bytes := "" |}.
Definition notes : File :=
  {| name := "notes.txt"; type := "text/plain"; bytes := "bm90ZXM=" |}.

(** Reading fails on an empty file. *)
Definition fileToBase64 (f : File) (w : unit) : (JsError + string) * unit :=
  (if bool_decide (bytes f = "") then inl {| message := "empty file" |}
   else inr (bytes f), w).
Definition GoogleGenAI (apiKey : string) : JsError + string := inr apiKey.
Definition generateContent (ai data : string) (w : unit)
    : (JsError + option string) * unit :=
  (inr (Some data), w).
Definition JSON_parse (text : string) : JsError + list OrderError :=
  inr [almada "2E955" Glovo; almada "2E956" Glovo; almada "10154" UberEats].

(** A machine on which a batch has completed before. *)
Definition afterOneBatch : Machine unit :=
  {| app := {| appStatus := COMPLETED;
               results := [successOutcome reportA [almada "2E955" Glovo]];
               progress := "" |};
     history := []; console := []; world := tt |}.

Definition sourced (file restaurant : string) (p : Platform) : SourcedOrder :=
  {| order := {| orderNumber := "1"; restaurantName := restaurant;
                 date := "2026-01-14"; time := "12:30"; customerName := "N/A";
                 platform := p |};
     sourceFile := file |}.

(** Outcomes whose records name restaurants after properties that every
    object inherits. *)
Definition namedConstructor : list ExtractedFileResult :=
  [{| fileName := "a.pdf"; status := success;
      orders := [{| orderNumber := "2E955"; restaurantName := "constructor";
                    date := "2026-01-14"; time := "12:30";
                    customerName := "N/A"; platform := Glovo |}];
      errorMessage := None |}].
Definition namedToString : list ExtractedFileResult :=
  [{| fileName := "a.pdf"; status := success;
      orders := [almada "2E955" Glovo;
                 {| orderNumber := "10154"; restaurantName := "toString";
                    date := "2026-01-14"; time := "12:31";
                    customerName := "Ana"; platform := Bolt |}];
      errorMessage := None |}].

End Sample.

(** ** The outcomes of extraction calls made in turn *)

Section inTurn.

Context {World Client : Type}.
Variable API_KEY : option string.
Variable GoogleGenAI : string → JsError + Client.
Variable fileToBase64 : File → World → (JsError + string) * World.
Variable generateContent :
  Client → string → World → (JsError + option string) * World.
Variable JSON_parse : string → JsError + list OrderError.

(** One call of the extraction client for [file] in the world [w]: what it
    resolves with or is rejected with, and the world it leaves. *)
Definition extractionIn (file : File) (w : World)
    : (JsError + list OrderError) * World :=
  let run :=
    extractOrdersFromPdf API_KEY GoogleGenAI fileToBase64 generateContent
      JSON_parse file
      {| app := initialAppState; history := []; console := []; world := w |} in
  (run.1, world run.2).

(** The outcome that stands for the result of a file's extraction call. *)
Definition outcomeFor (file : File) (r : JsError + list OrderError)
    : ExtractedFileResult :=
  match r with
  | inr orders => successOutcome file orders
  | inl _ => errorOutcome file
  end.

(** One extraction call per file, in order, each in the world the call
    before it left, and the outcome of each. *)
Fixpoint outcomesInTurn (files : list File) (w : World)
    : list ExtractedFileResult :=
  match files with
  | [] => []
  | file :: rest =>
      outcomeFor file (extractionIn file w).1
      :: outcomesInTurn rest (extractionIn file w).2
  end.

End inTurn.

(** ** More sample inputs *)

Module Scenario.

(** A service that answers without text. *)
Definition silentService (ai data : string) (w : unit)
    : (JsError + option string) * unit :=
  (inr None, w).

(** Records of two restaurants on three platforms. *)
Definition records : list SourcedOrder :=
  [Sample.sourced "a.pdf" "Miraflores" Bolt;
   Sample.sourced "a.pdf" "Alfragide" UberEats;
   Sample.sourced "b.pdf" "Miraflores" Glovo;
   Sample.sourced "b.pdf" "Miraflores" Bolt].

(** The order of strings by their bytes, standing for the one of [sort()]. *)
Definition byBytes (a b : string) : Z :=
  if String.ltb a b then (-1)%Z else if String.ltb b a then 1%Z else 0%Z.

(** A page on which a batch is running. *)
Definition running : Machine unit :=
  {| app := {| appStatus := PROCESSING; results := [];
               progress := "Analisando arquivo 1 de 1: a.pdf..." |};
     history := []; console := []; world := tt |}.

End Scenario.

(** * Facts *)

(** ** The batch orchestrator *)

Section batch.

Context {World Client : Type}.
Variable API_KEY : option string.
Variable GoogleGenAI : string → JsError + Client.
Variable fileToBase64 : File → World → (JsError + string) * World.
Variable generateContent :
  Client → string → World → (JsError + option string) * World.
Variable JSON_parse : string → JsError + list OrderError.

Local Abbreviation extract :=
  (extractOrdersFromPdf API_KEY GoogleGenAI fileToBase64 generateContent JSON_parse).
Local Abbreviation loop :=
  (processFiles API_KEY GoogleGenAI fileToBase64 generateContent JSON_parse).
Local Abbreviation runBatch :=
  (handleFilesSelected API_KEY GoogleGenAI fileToBase64 generateContent JSON_parse).
Local Abbreviation inTurn :=
  (outcomesInTurn API_KEY GoogleGenAI fileToBase64 generateContent JSON_parse).

Ltac run_monad :=
  unfold mbind, mret, M_bind, M_ret, bind, fromResult, ret, throw, try_catch,
    external, console_error, setStatus, setResults, setProgress, setApp in *;
  simpl in *.

(** The extraction client leaves the React state alone. *)
Lemma extract_app file m r m' :
  extract file m = (r, m') → app m' = app m ∧ history m' = history m.
Proof.
  unfold extractOrdersFromPdf. run_monad.
  destruct (truthy API_KEY) as [apiKey|].
  - destruct (GoogleGenAI apiKey) as [e|ai]; simpl.
    { intros [= <- <-]. done. }
    destruct (fileToBase64 file (world m)) as [[e|b64] w1]; simpl.
    { intros [= <- <-]. done. }
    destruct (generateContent ai b64 w1) as [[e|text] w2]; simpl.
    { intros [= <- <-]. done. }
    destruct (truthy text) as [t|]; simpl.
    + destruct (JSON_parse t); intros [= <- <-]; done.
    + intros [= <- <-]. done.
  - intros [= <- <-]. done.
Qed.

(** One turn of the loop. *)
Lemma loop_cons n i file rest acc m :
  loop n i (file :: rest) acc m =
  match extract file (setProgress (progressLabel i n file) m).2 with
  | (inr orders, m2) => loop n (i + 1) rest (acc ++ [successOutcome file orders]) m2
  | (inl e, m2) =>
      loop n (i + 1) rest (acc ++ [errorOutcome file])
        (console_error ("Error processing " +:+ name file +:+ ":") e m2).2
  end.
Proof.
  simpl. unfold mbind at 1, M_bind at 1, bind at 1. simpl.
  unfold mbind at 1, M_bind at 1, bind at 1, try_catch at 1.
  unfold mbind at 1, M_bind at 1, bind at 1.
  destruct (extract file _) as [[e|orders] m2]; reflexivity.
Qed.

(** The whole loop: it never throws, appends one outcome per file in input
    order, and changes nothing of the React state but the progress line. *)
Lemma loop_spec rest : ∀ n i acc m, ∃ out m',
  loop n i rest acc m = (inr (acc ++ out), m') ∧
  Forall2 (λ f r, r = errorOutcome f ∨ ∃ os, r = successOutcome f os) rest out ∧
  appStatus (app m') = appStatus (app m) ∧
  results (app m') = results (app m) ∧
  history m' = history m ++ imap (λ j, progressState (app m) n (i + j)) rest.
Proof.
  induction rest as [|file rest IH]; intros n i acc m.
  - exists [], m. simpl. rewrite !app_nil_r. repeat split; constructor.
  - rewrite loop_cons.
    set (m1 := (setProgress (progressLabel i n file) m).2).
    destruct (extract file m1) as [[e|os] m2] eqn:E;
      apply extract_app in E as [Happ Hhist].
    + destruct (IH n (i + 1) (acc ++ [errorOutcome file])
                  (console_error ("Error processing " +:+ name file +:+ ":") e m2).2)
        as (out & m' & -> & HF & Hs & Hr & Hh).
      exists (errorOutcome file :: out), m'.
      rewrite <- app_assoc. simpl in *. rewrite Happ, Hhist in *. simpl in *.
      repeat split; auto.
      rewrite Hh, <- app_assoc. simpl. f_equal. f_equal.
      * unfold progressState. f_equal. f_equal. lia.
      * apply imap_ext. intros j f _. unfold progressState. simpl.
        f_equal. f_equal. lia.
    + destruct (IH n (i + 1) (acc ++ [successOutcome file os]) m2)
        as (out & m' & -> & HF & Hs & Hr & Hh).
      exists (successOutcome file os :: out), m'.
      rewrite <- app_assoc. simpl in *. rewrite Happ, Hhist in *. simpl in *.
      repeat split; eauto.
      rewrite Hh, <- app_assoc. simpl. f_equal. f_equal.
      * unfold progressState. f_equal. f_equal. lia.
      * apply imap_ext. intros j f _. unfold progressState. simpl.
        f_equal. f_equal. lia.
Qed.


Lemma loop_app pre : ∀ post n i acc m,
  loop n i (pre ++ post) acc m =
  match loop n i pre acc m with
  | (inr acc', m') => loop n (i + length pre) post acc' m'
  | (inl e, m') => (inl e, m')
  end.
Proof.
  induction pre as [|file pre IH]; intros post n i acc m.
  - simpl. unfold mret, M_ret, ret. by rewrite Nat.add_0_r.
  - rewrite <- app_comm_cons, !loop_cons.
    destruct (extract file _) as [[e|os] m2]; rewrite IH; simpl;
      by replace (i + 1 + length pre) with (i + S (length pre)) by lia.
Qed.

(** The handler is its loop between two pairs of setter calls. *)
Lemma runBatch_unfold files m out m' :
  loop (length files) 0 files [] (loopEntry m) = (inr out, m') →
  runBatch files m =
  (inr tt, ((setResults out;; setStatus COMPLETED;; setProgress "") m').2).
Proof.
  intros Hloop. unfold handleFilesSelected, loopEntry in *.
  unfold mbind, M_bind, bind in *. simpl in *. by rewrite Hloop.
Qed.

Lemma outcome_fileName f r :
  r = errorOutcome f ∨ (∃ os, r = successOutcome f os) → fileName r = name f.
Proof. by intros [->|[os ->]]. Qed.

(** C1. For every batch of N files the handler returns (nothing escapes it),
    the phase is then completed, there are exactly N outcomes, and the
    outcome at index i is the one of the file at index i: it carries that
    file's name and is either its success or its error outcome. *)
Theorem batch_completes_in_order (files : list File) (m : Machine World) :
  ∃ final,
    runBatch files m = (inr tt, final) ∧
    appStatus (app final) = COMPLETED ∧
    length (results (app final)) = length files ∧
    ∀ i file, files !! i = Some file →
      ∃ r, results (app final) !! i = Some r ∧ fileName r = name file ∧
           (r = errorOutcome file ∨ ∃ os, r = successOutcome file os).
Proof.
  destruct (loop_spec files (length files) 0 [] (loopEntry m))
    as (out & m' & Hloop & HF & _).
  eexists. split; [by apply runBatch_unfold|]. simpl.
  split; [done|]. split; [symmetry; by eapply Forall2_length|].
  intros i file Hi.
  destruct (Forall2_lookup_l _ _ _ _ _ HF Hi) as (r & Hr & Hfr).
  exists r. split; [done|]. split; [by apply outcome_fileName|done].
Qed.

(** What an extraction call returns and does to the world depends on the
    world alone. *)
Lemma extract_world file m1 m2 :
  world m1 = world m2 →
  (extract file m1).1 = (extract file m2).1 ∧
  world (extract file m1).2 = world (extract file m2).2.
Proof.
  intros Hw.
  unfold extractOrdersFromPdf, mbind, mret, M_bind, M_ret, bind, fromResult,
    ret, throw, try_catch, external, console_error. simpl.
  destruct (truthy API_KEY) as [apiKey|]; simpl; [|done].
  destruct (GoogleGenAI apiKey) as [?|ai]; simpl; [done|]. rewrite Hw.
  destruct (fileToBase64 file (world m2)) as [[?|b64] w1]; simpl; [done|].
  destruct (generateContent ai b64 w1) as [[?|text] w2]; simpl; [done|].
  destruct (truthy text) as [t|]; simpl; [|done].
  destruct (JSON_parse t); done.
Qed.

Lemma loop_world rest : ∀ n i acc m1 m2,
  world m1 = world m2 →
  (loop n i rest acc m1).1 = (loop n i rest acc m2).1 ∧
  world (loop n i rest acc m1).2 = world (loop n i rest acc m2).2.
Proof.
  induction rest as [|file rest IH]; intros n i acc m1 m2 Hw; [done|].
  rewrite !loop_cons.
  destruct (extract_world file (setProgress (progressLabel i n file) m1).2
              (setProgress (progressLabel i n file) m2).2 Hw) as [Hr Hw'].
  destruct (extract file (setProgress (progressLabel i n file) m1).2)
    as [[e1|os1] m1'];
  destruct (extract file (setProgress (progressLabel i n file) m2).2)
    as [[e2|os2] m2']; simpl in Hr, Hw'; try done;
  injection Hr as ->; by apply IH.
Qed.

(** The loop records, for each file in turn, what its own extraction call
    gave. *)
Lemma loop_outcomes rest : ∀ n i acc m, ∃ m',
  loop n i rest acc m = (inr (acc ++ inTurn rest (world m)), m').
Proof.
  induction rest as [|file rest IH]; intros n i acc m.
  - exists m. simpl. by rewrite app_nil_r.
  - rewrite loop_cons. cbn [outcomesInTurn]. unfold extractionIn.
    destruct (extract_world file (setProgress (progressLabel i n file) m).2
                {| app := initialAppState; history := []; console := [];
                   world := world m |} eq_refl) as [Hr Hw].
    rewrite <- Hr, <- Hw.
    destruct (extract file (setProgress (progressLabel i n file) m).2)
      as [[e|os] m2]; cbn [fst snd outcomeFor].
    + destruct (IH n (i + 1) (acc ++ [errorOutcome file])
                  (console_error ("Error processing " +:+ name file +:+ ":") e m2).2)
        as (m' & Hm').
      exists m'. rewrite Hm', <- app_assoc. done.
    + destruct (IH n (i + 1) (acc ++ [successOutcome file os]) m2) as (m' & Hm').
      exists m'. rewrite Hm', <- app_assoc. done.
Qed.

(** C2. When the loop reaches a file whose extraction call is rejected, the
    outcomes recorded so far are kept, the error outcome with the fixed
    message is appended for that file, and every later file is still
    processed: its progress line is shown, the extraction client is called
    for it, in turn and from the world the rejected call left, and the
    outcome recorded for it is the one of its own call. *)
Theorem extraction_failure_is_isolated (pre : list File) (file : File)
    (post : list File) (m : Machine World) acc mk e m1 :
  let files := pre ++ file :: post in
  let n := length files in
  loop n 0 pre [] (loopEntry m) = (inr acc, mk) →
  extract file (setProgress (progressLabel (length pre) n file) mk).2 = (inl e, m1) →
  ∃ later final,
    runBatch files m = (inr tt, final) ∧
    appStatus (app final) = COMPLETED ∧
    length acc = length pre ∧
    results (app final) = acc ++ errorOutcome file :: later ∧
    later = inTurn post (world m1) ∧
    Forall2 (λ g r, fileName r = name g) post later ∧
    ∀ j g, post !! j = Some g →
      ∃ st, st ∈ history final ∧
            progress st = progressLabel (length pre + 1 + j) n g.
Proof.
  intros files n Hpre Hfail.
  destruct (loop_spec pre n 0 [] (loopEntry m)) as (acc' & mk' & Hpre' & HFpre & _).
  rewrite Hpre in Hpre'. injection Hpre' as -> ->.
  set (m2 := (console_error ("Error processing " +:+ name file +:+ ":") e m1).2).
  destruct (loop_spec post n (length pre + 1) (acc' ++ [errorOutcome file]) m2)
    as (later & m' & Hpost & HFpost & _ & _ & Hhist).
  assert (Hloop : loop n 0 files [] (loopEntry m)
                  = (inr (acc' ++ errorOutcome file :: later), m')).
  { unfold files. rewrite loop_app, Hpre, loop_cons.
    change (0 + length pre) with (length pre).
    rewrite Hfail. fold m2. rewrite Hpost. by rewrite <- app_assoc. }
  exists later. eexists. split; [by apply runBatch_unfold|]. simpl.
  split; [done|]. split; [symmetry; by eapply Forall2_length|].
  split; [done|]. split.
  { destruct (loop_outcomes post n (length pre + 1)
                (acc' ++ [errorOutcome file]) m2) as (m'' & Hturn).
    rewrite Hpost in Hturn. injection Hturn as Hturn _.
    by apply app_inv_head in Hturn. }
  split.
  { eapply Forall2_impl; [exact HFpost|]. intros g r. apply outcome_fileName. }
  intros j g Hj. eexists. split.
  - rewrite Hhist. rewrite !elem_of_app. left. left. left. right.
    apply list_elem_of_lookup. exists j. rewrite list_lookup_imap, Hj. done.
  - done.
Qed.


(** C8 (amended). A new batch starts by setting the phase to processing and
    then clearing the outcomes, before the first file is looked at; from
    there on the outcomes stay empty while files are processed, and no state
    of the batch has the idle phase. *)
Theorem batch_start_clears_outcomes (files : list File) (m : Machine World) :
  let s1 := {| appStatus := PROCESSING; results := results (app m);
               progress := progress (app m) |} in
  let s2 := {| appStatus := PROCESSING; results := [];
               progress := progress (app m) |} in
  ∃ ending,
    history (runBatch files m).2 =
      history m ++ s1 :: s2 :: imap (progressState s2 (length files)) files ++ ending ∧
    Forall (λ st, results st = []) (s2 :: imap (progressState s2 (length files)) files) ∧
    Forall (λ st, appStatus st ≠ IDLE)
      (s1 :: s2 :: imap (progressState s2 (length files)) files ++ ending).
Proof.
  intros s1 s2.
  destruct (loop_spec files (length files) 0 [] (loopEntry m))
    as (out & m' & Hloop & _ & Hst & _ & Hhist).
  rewrite (runBatch_unfold _ _ _ _ Hloop). simpl in *. eexists.
  split.
  { rewrite Hhist. rewrite <- !app_assoc. simpl. reflexivity. }
  split.
  - constructor; [done|]. apply Forall_forall. intros st Hin.
    apply elem_of_lookup_imap in Hin as (j & f & -> & _). done.
  - constructor; [done|]. constructor; [done|].
    apply Forall_app. split.
    + apply Forall_forall. intros st Hin.
      apply elem_of_lookup_imap in Hin as (j & f & -> & _). done.
    + rewrite Hst. repeat constructor; done.
Qed.

(** C9. With no API credential in the environment nothing fails before an
    extraction is attempted; every extraction call is then rejected with the
    error that names the missing key, without the outside world being
    touched, and the batch records an error outcome for each file and logs
    the cause under both labels. *)
Theorem missing_credential_fails_per_file :
  truthy API_KEY = None →
  let missing := {| message := "API Key is missing in environment variables." |} in
  (∀ w : World, ∃ final,
      runBatch [] (startup w) = (inr tt, final) ∧ console final = []) ∧
  (∀ file m0, ∃ m1,
      extract file m0 = (inl missing, m1) ∧ world m1 = world m0 ∧
      console m1 = console m0 ++ [{| label := "Gemini Extraction Error:"; cause := missing |}]) ∧
  (∀ files m, ∃ final,
      runBatch files m = (inr tt, final) ∧
      results (app final) = errorOutcome <$> files ∧
      world final = world m ∧
      console final = console m ++
        (files ≫= λ f, [{| label := "Gemini Extraction Error:"; cause := missing |};
                        {| label := "Error processing " +:+ name f +:+ ":"; cause := missing |}])).
Proof.
  intros Hkey missing.
  split. { intros w. eexists. split; reflexivity. }
  assert (Hex : ∀ file m0,
    extract file m0 =
    (inl missing, {| app := app m0; history := history m0;
                     console := console m0 ++ [{| label := "Gemini Extraction Error:"; cause := missing |}];
                     world := world m0 |})).
  { intros file m0. unfold extractOrdersFromPdf. rewrite Hkey. reflexivity. }
  split.
  { intros file m0. eexists. split; [apply Hex|]. done. }
  assert (Hloop : ∀ rest n i acc m0, ∃ m',
    loop n i rest acc m0 = (inr (acc ++ (errorOutcome <$> rest)), m') ∧
    world m' = world m0 ∧
    console m' = console m0 ++
      (rest ≫= λ f, [{| label := "Gemini Extraction Error:"; cause := missing |};
                     {| label := "Error processing " +:+ name f +:+ ":"; cause := missing |}])).
  { induction rest as [|f rest IH]; intros n i acc m0.
    - exists m0. simpl. by rewrite !app_nil_r.
    - rewrite loop_cons, Hex.
      destruct (IH n (i + 1) (acc ++ [errorOutcome f])
        (console_error ("Error processing " +:+ name f +:+ ":") missing
           {| app := app (setProgress (progressLabel i n f) m0).2;
              history := history (setProgress (progressLabel i n f) m0).2;
              console := console (setProgress (progressLabel i n f) m0).2 ++
                [{| label := "Gemini Extraction Error:"; cause := missing |}];
              world := world (setProgress (progressLabel i n f) m0).2 |}).2)
        as (m' & -> & Hw & Hc).
      exists m'. rewrite <- app_assoc. simpl in *.
      split; [done|]. split; [done|]. rewrite Hc, <- !app_assoc. done. }
  intros files m.
  destruct (Hloop files (length files) 0 [] (loopEntry m)) as (m' & Hl & Hw & Hc).
  eexists. split; [by apply runBatch_unfold|]. simpl. done.
Qed.

(** Only PDF files pass the filter of the upload zone. *)
Lemma validFiles_none (files : list File) :
  Forall (λ f, type f ≠ "application/pdf") files → validFiles files = [].
Proof.
  unfold validFiles. induction 1 as [|f files Hf _ IH]; [done|].
  rewrite filter_cons_False; done.
Qed.

(** C10. When every file picked in the dialog is not a PDF, the batch handler
    is still called, with no file: the batch runs to completed with no
    outcome, nothing is logged and no notice is shown. The same files dropped
    on the zone produce the notice and no batch. *)
Theorem dialog_with_no_pdf_runs_empty_batch (files : list File) (m : Machine World) :
  0 < length files →
  Forall (λ f, type f ≠ "application/pdf") files →
  handleFileInput (Some files) = [OnFilesSelected []] ∧
  (∃ final,
      runBatch [] m = (inr tt, final) ∧
      appStatus (app final) = COMPLETED ∧ results (app final) = [] ∧
      console final = console m ∧ world final = world m) ∧
  handleDrop false (Some files) =
    [PreventDefault; SetIsDragging false;
     Alert "Por favor, envie apenas arquivos PDF."].
Proof.
  intros Hlen Hall. unfold handleFileInput, handleDrop.
  rewrite (validFiles_none _ Hall), bool_decide_true by done.
  split; [done|]. split; [|done].
  eexists. split; [reflexivity|]. done.
Qed.


End batch.

(** ** Aggregation *)

(** C6. When only successes carry records, [allOrders] is the concatenation,
    in outcome order and then record order, of the records of exactly the
    successful outcomes, each with the name of its file; no record comes from
    another outcome. *)
Theorem allOrders_of_successes (results : list ExtractedFileResult) :
  Forall emptyOnError results →
  allOrders results = filter (λ r, status r = success) results ≫= taggedOrders ∧
  ∀ o, o ∈ allOrders results →
    ∃ r, r ∈ results ∧ status r = success ∧ order o ∈ orders r ∧
         sourceFile o = fileName r.
Proof.
  intros Hinv.
  assert (Heq : allOrders results
                = filter (λ r, status r = success) results ≫= taggedOrders).
  { unfold allOrders. case_bool_decide as Hlen.
    { by destruct results. }
    clear Hlen. induction Hinv as [|r rs Hr _ IH]; [done|].
    rewrite bind_cons, IH. fold (taggedOrders r).
    destruct (decide (status r = success)) as [Hs|Hs].
    - by rewrite filter_cons_True, bind_cons.
    - rewrite filter_cons_False by done.
      unfold taggedOrders. by rewrite (Hr Hs). }
  split; [done|]. intros o. rewrite Heq.
  intros (r & Ho & Hr)%list_elem_of_bind.
  apply list_elem_of_filter in Hr as [Hs Hr].
  apply list_elem_of_fmap in Ho as (o' & -> & Ho').
  exists r. done.
Qed.

(** C3. With no restaurant selected the filtered records are all records;
    with a selection they are the records whose restaurant is selected: each
    of them is one, none is left out, each is kept as many times as it
    occurs, and their order is the one they had. *)
Theorem filteredOrders_selects (results : list ExtractedFileResult)
    (selectedRestaurants : list string) :
  let all := allOrders results in
  let filtered := filteredOrders all selectedRestaurants in
  (selectedRestaurants = [] → filtered = all) ∧
  (selectedRestaurants ≠ [] →
     (∀ o : SourcedOrder,
        o ∈ filtered ↔ o ∈ all ∧ restaurantName o ∈ selectedRestaurants) ∧
     (∀ o : SourcedOrder, restaurantName o ∈ selectedRestaurants →
        length (filter (λ x, x = o) filtered) = length (filter (λ x, x = o) all)) ∧
     filtered `sublist_of` all).
Proof.
  intros all filtered. unfold filtered, filteredOrders. split.
  - intros ->. done.
  - intros Hsel. rewrite bool_decide_false by by destruct selectedRestaurants.
    split; [|split].
    + intros o. rewrite list_elem_of_filter. tauto.
    + intros o Ho. rewrite list_filter_filter. f_equal.
      apply list_filter_iff. intros x. split; [tauto|]. by intros ->.
    + apply sublist_filter.
Qed.

(** ** Platforms in view *)

Lemma Set_add_spec {A} `{EqDecision A} (s : list A) (x : A) :
  NoDup s → NoDup (Set_add s x) ∧ ∀ y, y ∈ Set_add s x ↔ y ∈ s ∨ y = x.
Proof.
  intros Hs. unfold Set_add. case_bool_decide as Hx.
  - split; [done|]. intros y. split; [tauto|]. by intros [?| ->].
  - split.
    + apply NoDup_app. split; [done|]. split; [|apply NoDup_singleton].
      intros y Hy ->%list_elem_of_singleton. done.
    + intros y. by rewrite elem_of_app, list_elem_of_singleton.
Qed.

(** [detectedPlatforms] holds each platform of the records once. *)
Lemma detectedPlatforms_spec (l : list SourcedOrder) :
  NoDup (detectedPlatforms l) ∧
  ∀ p, p ∈ detectedPlatforms l ↔ p ∈ (λ o : SourcedOrder, platform o) <$> l.
Proof.
  unfold detectedPlatforms.
  enough (H : ∀ acc, NoDup acc →
    NoDup (foldl (λ s (o : SourcedOrder), Set_add s (platform o)) acc l) ∧
    ∀ p, p ∈ foldl (λ s (o : SourcedOrder), Set_add s (platform o)) acc l
         ↔ p ∈ acc ∨ p ∈ (λ o : SourcedOrder, platform o) <$> l).
  { destruct (H [] (NoDup_nil_2)) as [Hnd Hin]. split; [done|].
    intros p. rewrite Hin, elem_of_nil. tauto. }
  induction l as [|o l IH]; intros acc Hacc; simpl.
  - split; [done|]. intros p. rewrite elem_of_nil. tauto.
  - destruct (Set_add_spec acc (platform o) Hacc) as [Hnd Hin].
    destruct (IH _ Hnd) as [Hnd' Hin']. split; [done|].
    intros p. rewrite Hin', Hin, elem_of_cons. tauto.
Qed.

Lemma rank_inj a b : rank a = rank b → a = b.
Proof. by destruct a, b. Qed.

Lemma displayOrder_sorted : StronglySorted before displayOrder.
Proof. unfold displayOrder, before. repeat constructor; simpl; lia. Qed.

Lemma displayOrder_complete p : p ∈ displayOrder.
Proof. destruct p; refine (bool_decide_unpack _ _); exact I. Qed.

Lemma StronglySorted_filter {A} (R : relation A) (P : A → Prop)
    `{∀ x, Decision (P x)} (l : list A) :
  StronglySorted R l → StronglySorted R (filter P l).
Proof.
  induction 1 as [|x l Hl IH Hx]; [constructor|].
  rewrite filter_cons. case_decide; [|done].
  constructor; [done|].
  apply Forall_forall. intros y [_ Hy]%list_elem_of_filter.
  rewrite Forall_forall in Hx. by apply Hx.
Qed.

Section platforms.

Variable localeCompare : string → string → Z.

Local Abbreviation compare := (comparePlatforms localeCompare).

(** On two different platforms the comparison function follows [rank],
    whatever the host's [localeCompare] is. *)
Lemma compare_rank a b : a ≠ b → (0 < compare a b)%Z ↔ before b a.
Proof.
  unfold before.
  destruct a, b; intros Hab; try done;
    unfold comparePlatforms, indexOf; simpl; lia.
Qed.

Lemma compare_rank_le a b : a ≠ b → (compare a b ≤ 0)%Z ↔ before a b.
Proof.
  intros Hab. pose proof (compare_rank a b Hab) as Hr. unfold before in *.
  assert (rank a ≠ rank b) by (intros ?%rank_inj; done). lia.
Qed.

Lemma sort_insert_perm {A} (cmp : A → A → Z) x l : sort_insert cmp x l ≡ₚ x :: l.
Proof.
  induction l as [|y l IH]; simpl; [done|].
  case_bool_decide; [done|]. by rewrite IH, Permutation_swap.
Qed.

Lemma Array_sort_perm {A} (cmp : A → A → Z) l : Array_sort cmp l ≡ₚ l.
Proof.
  unfold Array_sort.
  enough (H : ∀ acc, foldl (λ sorted x, sort_insert cmp x sorted) acc l ≡ₚ acc ++ l)
    by apply H.
  induction l as [|x l IH]; intros acc; simpl.
  - by rewrite app_nil_r.
  - rewrite IH, sort_insert_perm. simpl. apply Permutation_middle.
Qed.

Lemma sort_insert_sorted x l :
  x ∉ l → StronglySorted before l → StronglySorted before (sort_insert compare x l).
Proof.
  intros Hx Hl. induction Hl as [|y l Hl IH Hy]; simpl.
  - repeat constructor.
  - apply not_elem_of_cons in Hx as [Hxy Hx].
    case_bool_decide as Hc.
    + apply compare_rank in Hc; [|done].
      constructor; [by constructor|]. constructor; [done|].
      eapply Forall_impl; [exact Hy|]. unfold before in *. intros z. simpl. lia.
    + constructor; [by apply IH|].
      rewrite sort_insert_perm. constructor; [|done].
      apply compare_rank_le; [done|]. lia.
Qed.

Lemma Array_sort_sorted l : NoDup l → StronglySorted before (Array_sort compare l).
Proof.
  unfold Array_sort.
  enough (H : ∀ acc, NoDup (acc ++ l) → StronglySorted before acc →
    StronglySorted before (foldl (λ sorted x, sort_insert compare x sorted) acc l)).
  { intros Hl. apply H; [done|constructor]. }
  induction l as [|x l IH]; intros acc Hnd Hacc; simpl; [done|].
  apply IH.
  - rewrite sort_insert_perm. simpl. by rewrite Permutation_middle.
  - apply sort_insert_sorted; [|done].
    apply NoDup_app in Hnd as (_ & Hdis & _). intros Hin.
    apply (Hdis x Hin). by left.
Qed.

(** The one way to order a duplicate-free list of platforms by [rank]. *)
Lemma sorted_by_rank_unique (l k : list Platform) :
  NoDup k → l ≡ₚ k → StronglySorted before l →
  l = filter (λ p, p ∈ k) displayOrder.
Proof.
  intros Hk Hperm Hl.
  apply (StronglySorted_unique_strong before); [| done | |].
  - unfold before. intros a b _ _ ? ?. lia.
  - apply StronglySorted_filter, displayOrder_sorted.
  - apply NoDup_Permutation.
    + by rewrite Hperm.
    + apply NoDup_filter. refine (bool_decide_unpack _ _). exact I.
    + intros p. rewrite list_elem_of_filter, Hperm.
      pose proof (displayOrder_complete p). tauto.
Qed.

(** Any result [sort] may return on a duplicate-free list of platforms, that
    is any rearrangement that the comparison function accepts, is that one:
    the outcome does not depend on the sorting algorithm. *)
Lemma any_sort_result (l k : list Platform) :
  NoDup k → l ≡ₚ k → StronglySorted (λ a b, (compare a b ≤ 0)%Z) l →
  l = filter (λ p, p ∈ k) displayOrder.
Proof.
  intros Hk Hperm Hl. apply sorted_by_rank_unique; [done..|].
  assert (Hnd : NoDup l) by by rewrite Hperm.
  clear Hperm Hk. induction Hl as [|x l Hl IH Hx]; [constructor|].
  apply NoDup_cons in Hnd as [Hxl Hnd].
  constructor; [by apply IH|].
  apply Forall_forall. intros y Hy. rewrite Forall_forall in Hx.
  apply compare_rank_le; [|by apply Hx]. by intros ->.
Qed.

(** Records on Bolt, Uber Eats and Glovo, in that order. *)
Example platforms_of_three :
  sortedPlatforms localeCompare
    [Sample.sourced "a.pdf" "Miraflores" Bolt;
     Sample.sourced "a.pdf" "Alfragide" UberEats;
     Sample.sourced "b.pdf" "Miraflores" Glovo;
     Sample.sourced "b.pdf" "Miraflores" Bolt]
  = [UberEats; Glovo; Bolt].
Proof. reflexivity. Qed.

(** C5. [sortedPlatforms] lists each platform of the filtered records once:
    first those of Uber Eats, Glovo and Bolt that occur, in that order, then
    the others (the type leaves only Unknown, so their order among
    themselves is never in question). Records on Bolt, Uber Eats and Glovo
    give exactly Uber Eats, Glovo, Bolt. *)
Theorem platforms_in_view (filtered : list SourcedOrder) :
  let present p := p ∈ (λ o : SourcedOrder, platform o) <$> filtered in
  let shown := sortedPlatforms localeCompare filtered in
  NoDup shown ∧
  (∀ p, p ∈ shown ↔ present p) ∧
  shown = filter present [UberEats; Glovo; Bolt] ++ filter present [Unknown] ∧
  ((∀ p, present p ↔ p ∈ [Bolt; UberEats; Glovo]) →
     platformName <$> shown = ["Uber Eats"; "Glovo"; "Bolt"]).
Proof.
  intros present shown.
  destruct (detectedPlatforms_spec filtered) as [Hnd Hin].
  assert (Hperm : shown ≡ₚ detectedPlatforms filtered) by apply Array_sort_perm.
  assert (Heq : shown = filter present displayOrder).
  { unfold shown, sortedPlatforms.
    rewrite (sorted_by_rank_unique _ (detectedPlatforms filtered));
      [|done|apply Array_sort_perm|by apply Array_sort_sorted].
    apply list_filter_iff. intros p. apply Hin. }
  split; [by rewrite Hperm|]. split.
  { intros p. by rewrite Hperm, Hin. }
  split.
  { rewrite Heq. unfold displayOrder.
    by rewrite <- filter_app. }
  intros Hthree. rewrite Heq. unfold displayOrder.
  rewrite !filter_cons, filter_nil.
  destruct (decide (present UberEats)) as [_|[]];
    [|apply Hthree; refine (bool_decide_unpack _ _); exact I].
  destruct (decide (present Glovo)) as [_|[]];
    [|apply Hthree; refine (bool_decide_unpack _ _); exact I].
  destruct (decide (present Bolt)) as [_|[]];
    [|apply Hthree; refine (bool_decide_unpack _ _); exact I].
  destruct (decide (present Unknown)) as [H|_]; [|done].
  apply Hthree in H.
  repeat (apply elem_of_cons in H as [H|H]; [discriminate|]).
  by apply elem_of_nil in H.
Qed.

End platforms.

(** ** The cross-tabulation *)

Lemma platformName_not_total p : platformName p ≠ "total".
Proof. by destruct p. Qed.

Lemma newRow_total sp : newRow sp !! "total" = Some 0.
Proof.
  unfold newRow.
  enough (H : ∀ row : RestaurantStats, row !! "total" = Some 0 →
    foldl (λ row p, <[platformName p := 0]> row) row sp !! "total" = Some 0).
  { apply H. apply lookup_singleton_eq. }
  induction sp as [|p sp IH]; intros row Hrow; simpl; [done|].
  apply IH. rewrite lookup_insert_ne; [done|apply platformName_not_total].
Qed.

Lemma countOrder_total plat (row : RestaurantStats) n :
  plat ≠ "total" → row !! "total" = Some n →
  countOrder plat row !! "total" = Some (S n).
Proof.
  intros Hplat Hrow. unfold countOrder.
  rewrite lookup_alter_eq, lookup_alter_ne by done.
  destruct (row !! plat).
  - by rewrite Hrow.
  - rewrite lookup_insert_ne by done. by rewrite Hrow.
Qed.

Lemma rowTotal_countOrder plat (row : RestaurantStats) :
  plat ≠ "total" → is_Some (row !! "total") →
  rowTotal (countOrder plat row) = S (rowTotal row).
Proof.
  intros Hplat [n Hn]. unfold rowTotal.
  by rewrite (countOrder_total _ _ n), Hn.
Qed.

Lemma totalOf_insert_None (m : gmap string RestaurantStats) k row :
  m !! k = None → totalOf (<[k := row]> m) = rowTotal row + totalOf m.
Proof. intros Hk. unfold totalOf. by rewrite map_to_list_insert. Qed.

Lemma totalOf_insert_Some (m : gmap string RestaurantStats) k row row' :
  m !! k = Some row →
  totalOf (<[k := row']> m) + rowTotal row = rowTotal row' + totalOf m.
Proof.
  intros Hk. unfold totalOf.
  rewrite <- (map_to_list_delete m k row Hk), <- insert_delete_eq.
  rewrite map_to_list_insert by apply lookup_delete_eq. simpl. lia.
Qed.

(** Counting a record under a name that is not inherited: never throws, and
    counts it in an own row. *)
Lemma populate_tallied sp h (seen : list SourcedOrder) (o : SourcedOrder) :
  ¬ inheritedName (restaurantName o) → tallied h seen →
  ∃ h', populate sp h o = inr h' ∧ tallied h' (seen ++ [o]).
Proof.
  intros Hname (Hproto & Hdom & Hrows & Hsum). unfold populate.
  assert (Hmem : ∀ (r : string) (m : gmap string RestaurantStats) row,
    is_Some (<[restaurantName o := row]> m !! r)
    ↔ is_Some (m !! r) ∨ r = restaurantName o).
  { intros r m row. rewrite lookup_insert_is_Some.
    destruct (decide (restaurantName o = r)); intuition (auto; congruence). }
  destruct (ownStats h !! restaurantName o) as [row|] eqn:Hrow.
  - eexists. split; [done|]. split; [done|]. simpl. split; [|split].
    + intros r. rewrite Hmem, Hdom, fmap_app, elem_of_app. simpl.
      by rewrite list_elem_of_singleton.
    + intros r row'. destruct (decide (restaurantName o = r)) as [<-|Hne].
      * rewrite lookup_insert_eq. intros [= <-].
        destruct (Hrows _ _ Hrow) as [n Hn].
        rewrite (countOrder_total _ _ n);
          [done|apply platformName_not_total|done].
      * rewrite lookup_insert_ne by done. apply Hrows.
    + pose proof (totalOf_insert_Some (ownStats h) _ _
        (countOrder (platformName (platform o)) row) Hrow) as Ht.
      rewrite rowTotal_countOrder in Ht;
        [|apply platformName_not_total|by eapply Hrows].
      rewrite length_app. simpl. lia.
  - rewrite !bool_decide_false.
    2: { rewrite Hproto. apply not_elem_of_nil. }
    2: { intros ?. apply Hname. by right. }
    2: { intros ?. apply Hname. by left. }
    eexists. split; [done|]. split; [done|]. simpl. split; [|split].
    + intros r. rewrite Hmem, Hdom, fmap_app, elem_of_app. simpl.
      by rewrite list_elem_of_singleton.
    + intros r row'. destruct (decide (restaurantName o = r)) as [<-|Hne].
      * rewrite lookup_insert_eq. intros [= <-].
        rewrite (countOrder_total _ _ 0);
          [done|apply platformName_not_total|apply newRow_total].
      * rewrite lookup_insert_ne by done. apply Hrows.
    + rewrite totalOf_insert_None by done.
      rewrite rowTotal_countOrder;
        [|apply platformName_not_total|by rewrite newRow_total].
      unfold rowTotal at 1. rewrite newRow_total, length_app. simpl. lia.
Qed.

Lemma forEach_populate_tallied sp (l : list SourcedOrder) :
  Forall (λ o : SourcedOrder, ¬ inheritedName (restaurantName o)) l →
  ∀ h seen, tallied h seen →
  ∃ h', forEach (populate sp) h l = inr h' ∧ tallied h' (seen ++ l).
Proof.
  induction 1 as [|o l Ho _ IH]; intros h seen Hh; simpl.
  - exists h. by rewrite app_nil_r.
  - destruct (populate_tallied sp h seen o Ho Hh) as (h1 & -> & Hh1).
    destruct (IH h1 (seen ++ [o]) Hh1) as (h' & -> & Hh').
    exists h'. split; [done|]. by rewrite <- app_assoc in Hh'.
Qed.

Lemma freshRealm_tallied : tallied freshRealm [].
Proof.
  split; [done|]. split; [|split]; simpl.
  - intros r. rewrite lookup_empty. split; [by intros [? ?]|].
    by intros ?%elem_of_nil.
  - intros r row. by rewrite lookup_empty.
  - unfold totalOf. by rewrite map_to_list_empty.
Qed.

Section crosstab.

Variable localeCompare : string → string → Z.

(** As long as no restaurant goes by an inherited name, the summary is
    computed without an exception, has a row for exactly the restaurants of
    the filtered records, and its totals add up to their number. *)
Lemma summaryStats_ordinary (filtered : list SourcedOrder) :
  Forall (λ o : SourcedOrder, ¬ inheritedName (restaurantName o)) filtered →
  ∃ s, summaryStats localeCompare filtered = inr s ∧
       platforms s = sortedPlatforms localeCompare filtered ∧
       (∀ r, is_Some (stats s !! r)
             ↔ r ∈ (λ o : SourcedOrder, restaurantName o) <$> filtered) ∧
       sumOfTotals s = length filtered.
Proof.
  intros Hnames. unfold summaryStats, summaryStats_in.
  destruct (forEach_populate_tallied (sortedPlatforms localeCompare filtered)
              filtered Hnames freshRealm [] freshRealm_tallied)
    as (h & -> & _ & Hdom & _ & Hsum).
  eexists. split; [done|]. split; [done|]. split; [done|]. done.
Qed.

(** Rows are made for restaurants of the filtered records only. *)
Lemma rows_only_from_records (filtered : list SourcedOrder) s r :
  summaryStats localeCompare filtered = inr s →
  is_Some (stats s !! r) →
  r ∈ (λ o : SourcedOrder, restaurantName o) <$> filtered.
Proof.
  unfold summaryStats, summaryStats_in.
  generalize (sortedPlatforms localeCompare filtered). intros sp.
  enough (H : ∀ h h', forEach (populate sp) h filtered = inr h' →
    is_Some (ownStats h' !! r) →
    is_Some (ownStats h !! r)
    ∨ r ∈ (λ o : SourcedOrder, restaurantName o) <$> filtered).
  { destruct (forEach _ _ _) as [e|h'] eqn:Hrun; [done|].
    intros [= <-] Hr. simpl in Hr.
    destruct (H _ _ Hrun Hr) as [Hfresh|]; [|done].
    simpl in Hfresh. rewrite lookup_empty in Hfresh. by destruct Hfresh. }
  induction filtered as [|o l IH]; intros h h'; simpl.
  - intros [= ->]. by left.
  - destruct (populate sp h o) as [e|h1] eqn:Hstep; [done|].
    intros Hrun Hr. destruct (IH _ _ Hrun Hr) as [Hh1|Hl].
    2: { right. by right. }
    unfold populate in Hstep.
    destruct (ownStats h !! restaurantName o) as [row|] eqn:Hrow.
    + injection Hstep as <-. simpl in Hh1.
      apply lookup_insert_is_Some in Hh1 as [<-|[_ ?]]; [|by left].
      left. by rewrite Hrow.
    + repeat case_bool_decide; simplify_eq; simpl in *; try by left.
      apply lookup_insert_is_Some in Hh1 as [<-|[_ ?]]; [|by left].
      right. by left.
Qed.

(** C7, on records of a restaurant called "constructor": the summary is
    computed, and has no row for that restaurant although a filtered record
    names it. *)
Theorem inherited_name_gets_no_row :
  let filtered := filteredOrders (allOrders Sample.namedConstructor) [] in
  "constructor" ∈ (λ o : SourcedOrder, restaurantName o) <$> filtered ∧
  ∃ s, summaryStats localeCompare filtered = inr s ∧
       stats s !! "constructor" = None ∧ rows s = [].
Proof.
  split; [by left|]. eexists. split; [reflexivity|]. split; reflexivity.
Qed.

(** C4, on two records one of which names a restaurant "toString": the
    totals of the rows add up to 1 while there are 2 filtered records. *)
Theorem inherited_name_is_not_counted :
  let filtered := filteredOrders (allOrders Sample.namedToString) [] in
  ∃ s, summaryStats localeCompare filtered = inr s ∧
       sumOfTotals s = 1 ∧ length filtered = 2.
Proof.
  eexists. split; [reflexivity|]. split; [|reflexivity].
  vm_compute. reflexivity.
Qed.

End crosstab.

(** ** The sample scenario *)

Local Abbreviation sampleBatch :=
  (handleFilesSelected (Some "key") Sample.GoogleGenAI Sample.fileToBase64
     Sample.generateContent Sample.JSON_parse).

(** Two reports, the second unreadable: a success with three records, then an
    error with none; the summary has one row, 2 Glovo, 1 Uber Eats, total 3. *)
Example sample_scenario (localeCompare : string → string → Z) :
  let outcomes :=
    results (app (sampleBatch [Sample.reportA; Sample.reportB] (startup tt)).2) in
  let filtered := filteredOrders (allOrders outcomes) [] in
  (status <$> outcomes = [success; error]) ∧
  (length ∘ orders <$> outcomes = [3; 0]) ∧
  length filtered = 3 ∧
  ∃ s, summaryStats localeCompare filtered = inr s ∧
       platforms s = [UberEats; Glovo] ∧
       size (stats s) = 1 ∧
       ∃ row, stats s !! "Almada Fórum" = Some row ∧
              row !! "Glovo" = Some 2 ∧ row !! "Uber Eats" = Some 1 ∧
              row !! "total" = Some 3 ∧ size row = 3.
Proof.
  split; [reflexivity|]. split; [reflexivity|]. split; [reflexivity|].
  eexists. split; [reflexivity|]. split; [reflexivity|].
  split; [by vm_compute|].
  eexists. split; [by vm_compute|]. repeat split; by vm_compute.
Qed.

(** C8, as stated, fails: a batch started on a machine on which an earlier
    batch has completed never shows the idle phase. *)
Lemma batch_does_not_reset_to_idle :
  ¬ resetsToIdle (history (sampleBatch [Sample.reportA] Sample.afterOneBatch).2).
Proof.
  intros (pre & st & post & Htrace & Hidle & _).
  assert (Hall : Forall (λ s, appStatus s ≠ IDLE)
            (history (sampleBatch [Sample.reportA] Sample.afterOneBatch).2)).
  { refine (bool_decide_unpack _ _). vm_compute. exact I. }
  rewrite Htrace in Hall. apply Forall_app in Hall as [_ Hall].
  by apply Forall_cons in Hall as [Hst _].
Qed.

(** Three reports, the middle one unreadable. *)
Lemma extraction_failure_is_isolated_witness :
  ∃ final,
    sampleBatch ([Sample.reportA] ++ Sample.reportB :: [Sample.reportA]) (startup tt)
      = (inr tt, final) ∧
    results (app final) =
      [successOutcome Sample.reportA
         [Sample.almada "2E955" Glovo; Sample.almada "2E956" Glovo;
          Sample.almada "10154" UberEats];
       errorOutcome Sample.reportB;
       successOutcome Sample.reportA
         [Sample.almada "2E955" Glovo; Sample.almada "2E956" Glovo;
          Sample.almada "10154" UberEats]].
Proof.
  edestruct (extraction_failure_is_isolated (Some "key") Sample.GoogleGenAI
               Sample.fileToBase64 Sample.generateContent Sample.JSON_parse
               [Sample.reportA] Sample.reportB [Sample.reportA] (startup tt))
    as (later & final & Hrun & _ & _ & Hres & Hlater & _).
  - vm_compute. reflexivity.
  - vm_compute. reflexivity.
  - exists final. split; [exact Hrun|]. rewrite Hres, Hlater. reflexivity.
Defined.

(** Two reports and no key in the environment. *)
Lemma missing_credential_fails_per_file_witness :
  truthy None = None ∧
  ∃ final,
    handleFilesSelected None Sample.GoogleGenAI Sample.fileToBase64
      Sample.generateContent Sample.JSON_parse
      [Sample.reportA; Sample.reportB] (startup tt)
      = (inr tt, final) ∧
    results (app final) = errorOutcome <$> [Sample.reportA; Sample.reportB].
Proof.
  split; [reflexivity|].
  destruct (missing_credential_fails_per_file None Sample.GoogleGenAI
              Sample.fileToBase64 Sample.generateContent Sample.JSON_parse
              eq_refl) as (_ & _ & Hbatch).
  destruct (Hbatch [Sample.reportA; Sample.reportB] (startup tt))
    as (final & Hrun & Hres & _).
  exists final. split; [exact Hrun | exact Hres].
Defined.

(** A text file picked in the dialog, and dropped on the zone. *)
Lemma dialog_with_no_pdf_runs_empty_batch_witness :
  0 < length [Sample.notes] ∧
  Forall (λ f, type f ≠ "application/pdf") [Sample.notes] ∧
  handleFileInput (Some [Sample.notes]) = [OnFilesSelected []] ∧
  handleDrop false (Some [Sample.notes]) =
    [PreventDefault; SetIsDragging false;
     Alert "Por favor, envie apenas arquivos PDF."].
Proof.
  assert (Hlen : 0 < length [Sample.notes]) by (simpl; lia).
  assert (Hall : Forall (λ f, type f ≠ "application/pdf") [Sample.notes])
    by (repeat constructor; discriminate).
  split; [exact Hlen|]. split; [exact Hall|].
  destruct (dialog_with_no_pdf_runs_empty_batch (Some "key")
              Sample.GoogleGenAI Sample.fileToBase64
              Sample.generateContent Sample.JSON_parse [Sample.notes]
              (startup tt) Hlen Hall) as (Hinput & _ & Hdrop).
  split; [exact Hinput | exact Hdrop].
Defined.

(** A success with one record followed by an error. *)
Lemma allOrders_of_successes_witness :
  let outcomes :=
    [successOutcome Sample.reportA [Sample.almada "2E955" Glovo];
     errorOutcome Sample.reportB] in
  Forall emptyOnError outcomes ∧
  allOrders outcomes
  = [{| order := Sample.almada "2E955" Glovo; sourceFile := "a.pdf" |}].
Proof.
  intros outcomes.
  assert (Hinv : Forall emptyOnError outcomes).
  { repeat constructor; unfold emptyOnError; simpl; congruence. }
  split; [exact Hinv|].
  destruct (allOrders_of_successes outcomes Hinv) as [Heq _].
  rewrite Heq. reflexivity.
Defined.

(** * More of the code *)

(** ** The extraction client and the orchestrator *)

Section batch_more.

Context {World Client : Type}.
Variable API_KEY : option string.
Variable GoogleGenAI : string → JsError + Client.
Variable fileToBase64 : File → World → (JsError + string) * World.
Variable generateContent :
  Client → string → World → (JsError + option string) * World.
Variable JSON_parse : string → JsError + list OrderError.

Local Abbreviation extract :=
  (extractOrdersFromPdf API_KEY GoogleGenAI fileToBase64 generateContent JSON_parse).
Local Abbreviation loop :=
  (processFiles API_KEY GoogleGenAI fileToBase64 generateContent JSON_parse).
Local Abbreviation runBatch :=
  (handleFilesSelected API_KEY GoogleGenAI fileToBase64 generateContent JSON_parse).
Local Abbreviation loop_turn :=
  (loop_cons API_KEY GoogleGenAI fileToBase64 generateContent JSON_parse).
Local Abbreviation loop_whole :=
  (loop_spec API_KEY GoogleGenAI fileToBase64 generateContent JSON_parse).
Local Abbreviation runBatch_is :=
  (runBatch_unfold API_KEY GoogleGenAI fileToBase64 generateContent JSON_parse).

(** Every way a call of the extraction client can go. *)
Ltac extract_cases file m :=
  unfold extractOrdersFromPdf, mbind, mret, M_bind, M_ret, bind, fromResult,
    ret, throw, try_catch, external, console_error; simpl;
  destruct (truthy API_KEY) as [apiKey|]; simpl;
  [ destruct (GoogleGenAI apiKey) as [?|ai]; simpl;
    [ | destruct (fileToBase64 file (world m)) as [[?|b64] w1]; simpl;
        [ | destruct (generateContent ai b64 w1) as [[?|text] w2]; simpl;
            [ | destruct (truthy text) as [t|]; simpl;
                [ destruct (JSON_parse t); simpl | ] ] ] ]
  | ].

(** X1. The extraction client rethrows what it caught: a rejection leaves
    exactly one more console entry, labelled and carrying the very error the
    caller receives, and a result leaves the console as it was. *)
Theorem extract_logs_what_it_rethrows (file : File) (m : Machine World) :
  match extract file m with
  | (inl e, m') =>
      console m' = console m ++ [{| label := "Gemini Extraction Error:"; cause := e |}]
  | (inr _, m') => console m' = console m
  end.
Proof. extract_cases file m; done. Qed.

(** The same by length, for the loop. *)
Lemma extract_console file m r m' :
  extract file m = (r, m') →
  length (console m') = length (console m) + (if r is inl _ then 1 else 0).
Proof.
  extract_cases file m; intros [= <- <-]; simpl; rewrite ?length_app; simpl; lia.
Qed.

(** X2. A response without text is not an error: when the key is there, the
    client is built, the file is read and the service answers with an
    undefined or empty text, the call resolves with no records, whatever
    [JSON.parse] would have made of it, and a batch of that one file records
    a success with no orders. *)
Theorem empty_response_is_an_empty_success (file : File) (m : Machine World)
    apiKey ai b64 w1 text w2 :
  truthy API_KEY = Some apiKey →
  GoogleGenAI apiKey = inr ai →
  fileToBase64 file (world m) = (inr b64, w1) →
  generateContent ai b64 w1 = (inr text, w2) →
  truthy text = None →
  (extract file m).1 = inr [] ∧
  world (extract file m).2 = w2 ∧
  console (extract file m).2 = console m ∧
  results (app (runBatch [file] m).2) = [successOutcome file []].
Proof.
  intros Hkey Hai Hread Hcall Htext.
  assert (Hex : ∀ m0, world m0 = world m →
    extract file m0 =
    (inr [], {| app := app m0; history := history m0; console := console m0;
                world := w2 |})).
  { intros m0 Hw. unfold extractOrdersFromPdf, mbind, mret, M_bind, M_ret,
      bind, fromResult, ret, throw, try_catch, external. simpl.
    rewrite Hkey, Hai. simpl. rewrite Hw, Hread. simpl.
    rewrite Hcall. simpl. by rewrite Htext. }
  rewrite (Hex m eq_refl). simpl. repeat split.
  pose proof (loop_turn 1 0 file [] [] (loopEntry m)) as Hloop.
  rewrite Hex in Hloop by done.
  cbn [processFiles] in Hloop. unfold mret, M_ret, ret in Hloop.
  by rewrite (runBatch_is [file] m _ _ Hloop).
Qed.

(** X3. A file that cannot be read is rejected with the reader's own error,
    and the service is not called for it: the world is left as the reader
    left it. A batch of that one file records the error outcome. *)
Theorem unreadable_file_never_reaches_the_service (file : File)
    (m : Machine World) apiKey ai e w1 :
  truthy API_KEY = Some apiKey →
  GoogleGenAI apiKey = inr ai →
  fileToBase64 file (world m) = (inl e, w1) →
  (extract file m).1 = inl e ∧
  world (extract file m).2 = w1 ∧
  results (app (runBatch [file] m).2) = [errorOutcome file] ∧
  world (runBatch [file] m).2 = w1.
Proof.
  intros Hkey Hai Hread.
  assert (Hex : ∀ m0, world m0 = world m →
    extract file m0 =
    (inl e, {| app := app m0; history := history m0;
               console := console m0 ++ [{| label := "Gemini Extraction Error:"; cause := e |}];
               world := w1 |})).
  { intros m0 Hw. unfold extractOrdersFromPdf, mbind, mret, M_bind, M_ret,
      bind, fromResult, ret, throw, try_catch, external, console_error. simpl.
    rewrite Hkey, Hai. simpl. rewrite Hw, Hread. done. }
  rewrite (Hex m eq_refl). simpl. split; [done|]. split; [done|].
  pose proof (loop_turn 1 0 file [] [] (loopEntry m)) as Hloop.
  rewrite Hex in Hloop by done.
  cbn [processFiles] in Hloop. unfold mret, M_ret, ret in Hloop.
  by rewrite (runBatch_is [file] m _ _ Hloop).
Qed.

(** The console over the loop: two entries for each rejected file. *)
Lemma loop_console rest : ∀ n i acc m, ∃ out m',
  loop n i rest acc m = (inr (acc ++ out), m') ∧
  length (console m') =
    length (console m) + 2 * length (filter (λ r, status r = error) out).
Proof.
  induction rest as [|file rest IH]; intros n i acc m.
  - exists [], m. simpl. rewrite app_nil_r. split; [done|]. lia.
  - rewrite loop_turn.
    destruct (extract file _) as [[e|os] m2] eqn:E;
      apply extract_console in E; simpl in E.
    + destruct (IH n (i + 1) (acc ++ [errorOutcome file])
                  (console_error ("Error processing " +:+ name file +:+ ":") e m2).2)
        as (out & m' & -> & Hc).
      exists (errorOutcome file :: out), m'. rewrite <- app_assoc.
      split; [done|]. rewrite filter_cons_True by done.
      simpl in *. rewrite length_app in Hc. simpl in Hc. lia.
    + destruct (IH n (i + 1) (acc ++ [successOutcome file os]) m2)
        as (out & m' & -> & Hc).
      exists (successOutcome file os :: out), m'. rewrite <- app_assoc.
      split; [done|]. rewrite filter_cons_False by done. lia.
Qed.

(** X4. Over a whole batch the console grows by exactly two entries for each
    error outcome (the cause, logged by the client and again by the handler)
    and by none for a success. *)
Theorem batch_logs_two_entries_per_error (files : list File) (m : Machine World) :
  let final := (runBatch files m).2 in
  length (console final) =
    length (console m)
    + 2 * length (filter (λ r, status r = error) (results (app final))).
Proof.
  destruct (loop_console files (length files) 0 [] (loopEntry m))
    as (out & m' & Hloop & Hc).
  simpl. rewrite (runBatch_is _ _ _ _ Hloop). simpl. exact Hc.
Qed.

(** X5. Nothing of an earlier batch reaches a new one: the outcomes a batch
    ends with, and the world it leaves, are the same whatever results,
    status, progress line, history and console it started from. *)
Theorem batch_ignores_previous_state (files : list File) (m : Machine World)
    (a : AppState) (h : list AppState) (c : list LogEntry) :
  let other := {| app := a; history := h; console := c; world := world m |} in
  results (app (runBatch files m).2) = results (app (runBatch files other).2) ∧
  world (runBatch files m).2 = world (runBatch files other).2.
Proof.
  intros other.
  destruct (loop_whole files (length files) 0 [] (loopEntry m))
    as (out1 & m1 & Hl1 & _).
  destruct (loop_whole files (length files) 0 [] (loopEntry other))
    as (out2 & m2 & Hl2 & _).
  destruct (loop_world API_KEY GoogleGenAI fileToBase64 generateContent JSON_parse
              files (length files) 0 [] (loopEntry m) (loopEntry other))
    as [Hr Hw]; [done|].
  rewrite Hl1, Hl2 in Hr, Hw. simpl in Hr, Hw. injection Hr as ->.
  rewrite (runBatch_is _ _ _ _ Hl1), (runBatch_is _ _ _ _ Hl2). done.
Qed.

(** The states a batch records, in full. *)
Lemma batch_history (files : list File) (m : Machine World) :
  let final := (runBatch files m).2 in
  let outs := results (app final) in
  let s1 := {| appStatus := PROCESSING; results := results (app m);
               progress := progress (app m) |} in
  let s2 := {| appStatus := PROCESSING; results := [];
               progress := progress (app m) |} in
  length outs = length files ∧
  Forall2 (λ f r, fileName r = name f) files outs ∧
  app final = {| appStatus := COMPLETED; results := outs; progress := "" |} ∧
  ∃ lastLine,
    history final =
      history m ++ s1 :: s2 :: imap (progressState s2 (length files)) files
      ++ [{| appStatus := PROCESSING; results := outs; progress := lastLine |};
          {| appStatus := COMPLETED; results := outs; progress := lastLine |};
          {| appStatus := COMPLETED; results := outs; progress := "" |}].
Proof.
  destruct (loop_whole files (length files) 0 [] (loopEntry m))
    as (out & m' & Hloop & HF & Hst & _ & Hhist).
  simpl. rewrite (runBatch_is _ _ _ _ Hloop). simpl in *.
  split; [symmetry; by eapply Forall2_length|]. split.
  { eapply Forall2_impl; [exact HF|]. intros f r. apply outcome_fileName. }
  split; [done|]. exists (progress (app m')).
  rewrite Hhist, Hst, <- !app_assoc. done.
Qed.

(** The progress line the loop leaves: the one it found, or the line of one
    of its files. *)
Lemma loop_line rest : ∀ n i acc m,
  progress (app (loop n i rest acc m).2) = progress (app m) ∨
  ∃ j file, rest !! j = Some file ∧
    progress (app (loop n i rest acc m).2) = progressLabel (i + j) n file.
Proof.
  induction rest as [|file rest IH]; intros n i acc m; [by left|].
  rewrite loop_turn. right.
  destruct (extract file (setProgress (progressLabel i n file) m).2)
    as [[e|os] m2] eqn:E;
    apply (extract_app API_KEY GoogleGenAI fileToBase64 generateContent
             JSON_parse) in E as [Happ _].
  - destruct (IH n (i + 1) (acc ++ [errorOutcome file])
                (console_error ("Error processing " +:+ name file +:+ ":") e m2).2)
      as [Hsame|(j & g & Hj & Hline)].
    + exists 0, file. split; [done|]. rewrite Hsame. simpl. rewrite Happ.
      simpl. by rewrite Nat.add_0_r.
    + exists (S j), g. split; [done|]. rewrite Hline. f_equal. lia.
  - destruct (IH n (i + 1) (acc ++ [successOutcome file os]) m2)
      as [Hsame|(j & g & Hj & Hline)].
    + exists 0, file. split; [done|]. rewrite Hsame, Happ.
      simpl. by rewrite Nat.add_0_r.
    + exists (S j), g. split; [done|]. rewrite Hline. f_equal. lia.
Qed.

(** X6. In every state the setter calls of a batch produce, and so in every
    state of it that is rendered, the page is in one of two views: the
    progress indicator with the line the batch found or the line of one of
    its files, and no results table; or, once the phase is completed, no
    indicator and the results table mounted on all the outcomes of the batch.
    The table is never mounted on a part of them. *)
Theorem views_through_a_batch (files : list File) (m : Machine World)
    (st : AppState) :
  let final := (runBatch files m).2 in
  st ∈ drop (length (history m)) (history final) →
  (∃ line,
     App_render st =
       {| isProcessing := true; processingIndicator := Some line;
          resultsTable := None |} ∧
     (line = progress (app m) ∨
      ∃ i file, files !! i = Some file ∧
                line = progressLabel i (length files) file)) ∨
  App_render st =
    {| isProcessing := false; processingIndicator := None;
       resultsTable := Some (results (app final)) |}.
Proof.
  destruct (loop_whole files (length files) 0 [] (loopEntry m))
    as (out & m' & Hloop & _ & Hst & _ & Hhist).
  pose proof (loop_line files (length files) 0 [] (loopEntry m)) as Hline.
  rewrite Hloop in Hline. simpl in Hline, Hst, Hhist.
  cbv zeta. rewrite (runBatch_is _ _ _ _ Hloop). simpl.
  rewrite Hhist, Hst, <- !app_assoc, drop_app_length. simpl.
  intros Hin.
  apply elem_of_cons in Hin as [->|Hin]; [left; eexists; split; [done|by left]|].
  apply elem_of_cons in Hin as [->|Hin]; [left; eexists; split; [done|by left]|].
  apply elem_of_app in Hin as [Hin|Hin].
  - apply elem_of_lookup_imap in Hin as (i & f & -> & Hf).
    left. eexists. split; [done|]. right. by exists i, f.
  - apply elem_of_cons in Hin as [->|Hin]; [left; eexists; split; [done|exact Hline]|].
    apply elem_of_cons in Hin as [->|Hin]; [by right|].
    apply list_elem_of_singleton in Hin as ->. by right.
Qed.

(** X7. While a batch is running the upload zone starts nothing: in every
    state the batch records before it completes, a drop of any files is
    dropped (no batch, no notice) and a click does not open the dialog. *)
Theorem upload_zone_is_inert_while_processing (files : list File)
    (m : Machine World) (st : AppState) :
  st ∈ drop (length (history m)) (history (runBatch files m).2) →
  appStatus st = COMPLETED ∨
  (∀ (dropped : option (list File)) (m' : Machine World), app m' = st →
     App_drop API_KEY GoogleGenAI fileToBase64 generateContent JSON_parse
       dropped m' = (inr tt, m') ∧
     alerts (handleDrop (isProcessing (App_render st)) dropped) = []) ∧
  handleClick (isProcessing (App_render st)) = false ∧
  handleDragOver (isProcessing (App_render st)) = [PreventDefault].
Proof.
  destruct (batch_history files m) as (_ & _ & _ & lastLine & Hh).
  simpl in Hh. rewrite Hh, drop_app_length. intros Hin.
  assert (Hst : appStatus st = COMPLETED ∨ appStatus st = PROCESSING).
  { apply elem_of_cons in Hin as [->|Hin]; [by right|].
    apply elem_of_cons in Hin as [->|Hin]; [by right|].
    apply elem_of_app in Hin as [Hin|Hin].
    - apply elem_of_lookup_imap in Hin as (i & f & -> & _). by right.
    - apply elem_of_cons in Hin as [->|Hin]; [by right|].
      apply elem_of_cons in Hin as [->|Hin]; [by left|].
      apply list_elem_of_singleton in Hin as ->. by left. }
  destruct Hst as [?|Hst]; [by left|]. right.
  unfold App_drop, App_render, handleDrop, handleClick, handleDragOver.
  simpl. rewrite !bool_decide_true by done. split; [|done].
  intros dropped m' ->. simpl. rewrite bool_decide_true by done. done.
Qed.

(** The files kept by the upload zone are the PDF files, in their order. *)
Lemma validFiles_spec (files : list File) :
  validFiles files `sublist_of` files ∧
  ∀ f, f ∈ validFiles files ↔ f ∈ files ∧ type f = "application/pdf".
Proof.
  unfold validFiles. split; [apply sublist_filter|].
  intros f. rewrite list_elem_of_filter. tauto.
Qed.

(** X8. A drop on the idle or completed page that holds at least one PDF
    starts one batch, over exactly the PDF files in the order they were
    dropped, with no notice; the other files leave no outcome: the outcomes
    carry the names of the PDF files, one each. *)
Theorem drop_starts_a_batch_of_the_pdfs (files : list File) (m : Machine World) :
  appStatus (app m) ≠ PROCESSING →
  validFiles files ≠ [] →
  let final :=
    (App_drop API_KEY GoogleGenAI fileToBase64 generateContent JSON_parse
       (Some files) m).2 in
  App_drop API_KEY GoogleGenAI fileToBase64 generateContent JSON_parse
    (Some files) m = runBatch (validFiles files) m ∧
  alerts (handleDrop (isProcessing (App_render (app m))) (Some files)) = [] ∧
  fileName <$> results (app final) = name <$> validFiles files ∧
  validFiles files `sublist_of` files ∧
  ∀ f, f ∈ validFiles files ↔ f ∈ files ∧ type f = "application/pdf".
Proof.
  intros Hidle Hpdf.
  assert (Hlen : 0 < length (validFiles files)).
  { destruct (validFiles files); [done|simpl; lia]. }
  assert (Hfiles : 0 < length files).
  { destruct files; [done|simpl; lia]. }
  assert (Hdrop : handleDrop (isProcessing (App_render (app m))) (Some files)
                  = [PreventDefault; SetIsDragging false;
                     OnFilesSelected (validFiles files)]).
  { unfold handleDrop, App_render. simpl.
    rewrite bool_decide_false by done. by rewrite !bool_decide_true. }
  assert (Hrun : App_drop API_KEY GoogleGenAI fileToBase64 generateContent
                   JSON_parse (Some files) m = runBatch (validFiles files) m).
  { unfold App_drop. by rewrite Hdrop. }
  cbv zeta. rewrite Hrun, Hdrop. split; [done|]. split; [done|]. split.
  - destruct (batch_history (validFiles files) m) as (_ & HF & _).
    simpl in HF. clear -HF.
    induction HF as [|f r fs rs Hfr _ IH]; [done|].
    rewrite !fmap_cons. by rewrite Hfr, IH.
  - apply validFiles_spec.
Qed.


End batch_more.

(** ** The restaurant filter *)

Lemma foldl_Set_add_spec {A B} `{EqDecision A} (f : B → A) (l : list B) :
  ∀ acc, NoDup acc →
    NoDup (foldl (λ s x, Set_add s (f x)) acc l) ∧
    ∀ y, y ∈ foldl (λ s x, Set_add s (f x)) acc l ↔ y ∈ acc ∨ y ∈ f <$> l.
Proof.
  induction l as [|x l IH]; intros acc Hacc; simpl.
  - split; [done|]. intros y. rewrite elem_of_nil. tauto.
  - destruct (Set_add_spec acc (f x) Hacc) as [Hnd Hin].
    destruct (IH _ Hnd) as [Hnd' Hin']. split; [done|].
    intros y. rewrite Hin', Hin, elem_of_cons. tauto.
Qed.

(** X10. The filter offers each restaurant of the records exactly once,
    whatever order [sort] puts the names in. *)
Theorem uniqueRestaurants_lists_each_once (compareStrings : string → string → Z)
    (all : list SourcedOrder) :
  NoDup (uniqueRestaurants compareStrings all) ∧
  ∀ r, r ∈ uniqueRestaurants compareStrings all
       ↔ ∃ o : SourcedOrder, o ∈ all ∧ restaurantName o = r.
Proof.
  unfold uniqueRestaurants.
  destruct (foldl_Set_add_spec (λ o : SourcedOrder, restaurantName o) all []
              (NoDup_nil_2)) as [Hnd Hin].
  split.
  - by rewrite Array_sort_perm.
  - intros r. rewrite Array_sort_perm, Hin, elem_of_nil, list_elem_of_fmap.
    split.
    + intros [[]|(o & -> & Ho)]. by exists o.
    + intros (o & Ho & <-). right. by exists o.
Qed.

(** What a click on a filter button does to the selection. *)
Lemma toggleRestaurant_elem (name : string) (prev : list string) (n : string) :
  n ∈ toggleRestaurant name prev
  ↔ (n ≠ name ∧ n ∈ prev) ∨ (n = name ∧ name ∉ prev).
Proof.
  unfold toggleRestaurant. case_bool_decide as Hin.
  - rewrite list_elem_of_filter. split; [tauto|].
    intros [?|[_ ?]]; [tauto|done].
  - rewrite elem_of_app, list_elem_of_singleton. split.
    + intros [?| ->]; [left; split; [by intros ->|done]|by right].
    + intros [[_ ?]|[-> _]]; [by left|by right].
Qed.

(** X11. A click on a filter button flips that restaurant and no other: it
    is selected afterwards exactly when it was not before, every other name
    keeps its state, and a selection without repetition stays one. *)
Theorem toggleRestaurant_flips_one (name : string) (prev : list string) :
  (name ∈ toggleRestaurant name prev ↔ name ∉ prev) ∧
  (∀ n, n ≠ name → (n ∈ toggleRestaurant name prev ↔ n ∈ prev)) ∧
  (NoDup prev → NoDup (toggleRestaurant name prev)).
Proof.
  split; [|split].
  - rewrite toggleRestaurant_elem. split; [by intros [[? _]|[_ ?]]|by right].
  - intros n Hn. rewrite toggleRestaurant_elem. split; [|by left].
    by intros [[_ ?]|[? _]].
  - intros Hnd. unfold toggleRestaurant. case_bool_decide as Hin.
    + by apply NoDup_filter.
    + apply NoDup_app. split; [done|]. split; [|apply NoDup_singleton].
      by intros n Hn ->%list_elem_of_singleton.
Qed.

(** The filter reads the selection as a set. *)
Lemma filteredOrders_ext (all : list SourcedOrder) (s1 s2 : list string) :
  (∀ r, r ∈ s1 ↔ r ∈ s2) → filteredOrders all s1 = filteredOrders all s2.
Proof.
  intros Hset. unfold filteredOrders.
  destruct s1 as [|a s1], s2 as [|b s2]; simpl.
  - done.
  - exfalso. eapply not_elem_of_nil. apply Hset. by left.
  - exfalso. eapply not_elem_of_nil. apply Hset. by left.
  - apply list_filter_iff. intros o. apply Hset.
Qed.

(** X12. The filtered records depend on which restaurants are selected and
    on nothing else of the selection: neither the order in which they were
    clicked nor a repeated name changes them. *)
Theorem filteredOrders_reads_a_set (results : list ExtractedFileResult)
    (s1 s2 : list string) :
  (∀ r, r ∈ s1 ↔ r ∈ s2) →
  filteredOrders (allOrders results) s1 = filteredOrders (allOrders results) s2.
Proof. apply filteredOrders_ext. Qed.

(** X13. Clicking the same filter button twice brings the view back: the
    filtered records are those before the two clicks, and a selection that
    did not hold the name is restored as it was. *)
Theorem toggling_twice_restores_the_view (all : list SourcedOrder)
    (name : string) (prev : list string) :
  filteredOrders all (toggleRestaurant name (toggleRestaurant name prev))
  = filteredOrders all prev ∧
  (name ∉ prev →
   toggleRestaurant name (toggleRestaurant name prev) = prev).
Proof.
  split.
  - apply filteredOrders_ext. intros r. rewrite !toggleRestaurant_elem.
    destruct (decide (r = name)) as [->|Hr]; destruct (decide (name ∈ prev));
      intuition congruence.
  - intros Hname. unfold toggleRestaurant at 2.
    rewrite bool_decide_false by done. unfold toggleRestaurant.
    rewrite bool_decide_true by (apply elem_of_app; right; by left).
    rewrite filter_app, filter_cons_False, filter_nil, app_nil_r
      by (intros H; by apply H).
    clear -Hname. induction prev as [|x prev IH]; [done|].
    apply not_elem_of_cons in Hname as [Hx Hname].
    rewrite filter_cons_True by done. by rewrite IH.
Qed.

(** X14. From the unfiltered view, one click on a restaurant shows the
    records of that restaurant and only those, in their order; a second click
    on it shows all records again. *)
Theorem first_click_shows_one_restaurant (all : list SourcedOrder) (r : string) :
  filteredOrders all (toggleRestaurant r [])
  = filter (λ o : SourcedOrder, restaurantName o = r) all ∧
  filteredOrders all (toggleRestaurant r (toggleRestaurant r [])) = all.
Proof.
  split.
  - unfold toggleRestaurant, filteredOrders. simpl.
    apply list_filter_iff. intros o. rewrite list_elem_of_singleton. done.
  - unfold toggleRestaurant. simpl. rewrite bool_decide_true by by left.
    rewrite filter_cons_False, filter_nil by (intros H; by apply H). done.
Qed.

(** X15. As long as every selected name is one of the filter buttons, the
    main table is never empty for the filter's sake: it shows the filtered
    records, of which there is at least one, unless there is no record at
    all, in which case it says that the documents hold none. *)
Theorem selection_from_buttons_is_never_empty
    (compareStrings : string → string → Z)
    (all : list SourcedOrder) (selectedRestaurants : list string) :
  (∀ r, r ∈ selectedRestaurants → r ∈ uniqueRestaurants compareStrings all) →
  let filtered := filteredOrders all selectedRestaurants in
  (all ≠ [] ∧ filtered ≠ [] ∧ tableContents all filtered = inr filtered) ∨
  (all = [] ∧
   tableContents all filtered
   = inl "Nenhum pedido encontrado nos documentos analisados.").
Proof.
  intros Hsel filtered.
  destruct all as [|o0 all]; [right; split; [done|]|left; split; [done|]].
  { assert (Hnone : filtered = []).
    { unfold filtered, filteredOrders. by case_bool_decide. }
    rewrite Hnone. done. }
  assert (Hne : filtered ≠ []).
  { unfold filtered, filteredOrders.
    destruct selectedRestaurants as [|r sel]; [done|]. simpl.
    assert (Hr : r ∈ uniqueRestaurants compareStrings (o0 :: all))
      by (apply Hsel; by left).
    unfold uniqueRestaurants in Hr. rewrite Array_sort_perm in Hr.
    apply (foldl_Set_add_spec (λ o : SourcedOrder, restaurantName o)) in Hr
      as [[]%elem_of_nil|Hr]; [|apply NoDup_nil_2].
    apply list_elem_of_fmap in Hr as (o & -> & Ho).
    intros Hempty.
    assert (Hin : o ∈ filter (λ o1 : SourcedOrder,
                     restaurantName o1 ∈ restaurantName o :: sel) (o0 :: all)).
    { apply list_elem_of_filter. split; [by left|done]. }
    rewrite Hempty in Hin. by apply elem_of_nil in Hin. }
  split; [done|]. unfold tableContents.
  rewrite bool_decide_true; [done|]. destruct filtered; [done|simpl; lia].
Qed.

(** ** The cells of the cross-tabulation *)

Lemma platformName_inj p q : platformName p = platformName q → p = q.
Proof. by destruct p, q. Qed.

Lemma ordersOf_snoc r (seen : list SourcedOrder) (o : SourcedOrder) :
  ordersOf r (seen ++ [o])
  = ordersOf r seen + (if decide (restaurantName o = r) then 1 else 0).
Proof.
  unfold ordersOf. rewrite filter_app, length_app. f_equal.
  rewrite filter_cons, filter_nil. by case_decide.
Qed.

Lemma ordersOn_snoc r p (seen : list SourcedOrder) (o : SourcedOrder) :
  ordersOn r p (seen ++ [o])
  = ordersOn r p seen
    + (if decide (restaurantName o = r ∧ platform o = p) then 1 else 0).
Proof.
  unfold ordersOn. rewrite filter_app, length_app. f_equal.
  rewrite filter_cons, filter_nil. by case_decide.
Qed.

Lemma ordersOn_le r p (l : list SourcedOrder) :
  (ordersOn r p l ≤ ordersOf r l)%nat.
Proof.
  unfold ordersOn, ordersOf. induction l as [|o l IH]; [done|].
  rewrite !filter_cons. repeat case_decide; simpl; try lia. tauto.
Qed.

Lemma newRow_lookup sp k :
  newRow sp !! k =
  if decide (k = "total") then Some 0
  else if decide (k ∈ platformName <$> sp) then Some 0 else None.
Proof.
  unfold newRow.
  assert (H : ∀ row : RestaurantStats,
    foldl (λ row p, <[platformName p := 0]> row) row sp !! k
    = if decide (k ∈ platformName <$> sp) then Some 0 else row !! k).
  { induction sp as [|p sp IH]; intros row; simpl.
    - done.
    - rewrite IH. destruct (decide (k ∈ platformName <$> sp)) as [Hin|Hin].
      + rewrite decide_True; [done|by right].
      + destruct (decide (platformName p = k)) as [<-|Hne].
        * rewrite lookup_insert_eq. rewrite decide_True; [done|by left].
        * rewrite lookup_insert_ne by done. rewrite decide_False; [done|].
          intros [?|?]%elem_of_cons; [congruence|by apply Hin]. }
  rewrite H. destruct (decide (k = "total")) as [->|Hk].
  - rewrite decide_False; [apply lookup_singleton_eq|].
    intros (p & Hp & _)%list_elem_of_fmap.
    by apply (platformName_not_total p).
  - case_decide; [done|]. by rewrite lookup_singleton_ne.
Qed.

Lemma countOrder_lookup plat (row : RestaurantStats) k :
  plat ≠ "total" → is_Some (row !! plat) →
  countOrder plat row !! k =
  if decide (k = "total") then S <$> row !! "total"
  else if decide (k = plat) then S <$> row !! plat else row !! k.
Proof.
  intros Hplat [n Hn]. unfold countOrder. rewrite Hn, !lookup_alter.
  repeat case_decide; simplify_eq; rewrite ?Hn; done.
Qed.

(** Counting a record whose restaurant has no inherited name and whose
    platform has a column. *)
Lemma populate_counted sp h (seen : list SourcedOrder) (o : SourcedOrder) :
  ¬ inheritedName (restaurantName o) → platform o ∈ sp →
  counted sp h seen →
  ∃ h', populate sp h o = inr h' ∧ counted sp h' (seen ++ [o]).
Proof.
  intros Hname Hplat [Hproto Hrows]. unfold populate.
  pose proof (platformName_not_total (platform o)) as Hnt.
  pose proof (Hrows (restaurantName o)) as Hrest.
  destruct (ownStats h !! restaurantName o) as [row|] eqn:Hrow.
  - destruct Hrest as (Hpos & Htot & Hcells & Hkeys).
    eexists. split; [done|]. split; [done|]. simpl. intros r.
    destruct (decide (restaurantName o = r)) as [<-|Hne].
    + rewrite lookup_insert_eq.
      assert (Hsome : is_Some (row !! platformName (platform o)))
        by (rewrite Hcells; done).
      rewrite ordersOf_snoc, decide_True by done.
      split; [lia|]. split; [|split].
      * rewrite countOrder_lookup, decide_True, Htot by done. simpl.
        f_equal. lia.
      * intros p Hp. rewrite countOrder_lookup by done.
        rewrite decide_False by apply platformName_not_total.
        rewrite ordersOn_snoc.
        destruct (decide (platformName p = platformName (platform o))) as [Heq|Hneq].
        -- apply platformName_inj in Heq. subst p.
           rewrite (Hcells _ Hp), decide_True by done. simpl. f_equal. lia.
        -- rewrite (Hcells _ Hp), decide_False; [f_equal; lia|]. by intros [_ <-].
      * intros k. rewrite countOrder_lookup by done.
        destruct (decide (k = "total")) as [->|Hk]; [by left|].
        destruct (decide (k = platformName (platform o))) as [->|Hkp].
        -- intros _. right. by exists (platform o).
        -- apply Hkeys.
    + rewrite lookup_insert_ne by done.
      specialize (Hrows r). rewrite ordersOf_snoc, decide_False by done.
      destruct (ownStats h !! r) as [row'|]; [|lia].
      destruct Hrows as (Hpos' & Htot' & Hcells' & Hkeys').
      rewrite Nat.add_0_r. split; [done|]. split; [done|]. split; [|done].
      intros p Hp. rewrite ordersOn_snoc, decide_False by tauto.
      rewrite Nat.add_0_r. by apply Hcells'.
  - rewrite !bool_decide_false.
    2: { rewrite Hproto. apply not_elem_of_nil. }
    2: { intros ?. apply Hname. by right. }
    2: { intros ?. apply Hname. by left. }
    eexists. split; [done|]. split; [done|]. simpl. intros r.
    assert (Hsome : is_Some (newRow sp !! platformName (platform o))).
    { rewrite newRow_lookup, decide_False by done.
      rewrite decide_True; [done|]. by apply list_elem_of_fmap_2. }
    destruct (decide (restaurantName o = r)) as [<-|Hne].
    + rewrite lookup_insert_eq.
      rewrite ordersOf_snoc, decide_True, Hrest by done.
      split; [lia|]. split; [|split].
      * rewrite countOrder_lookup, decide_True by done.
        rewrite newRow_lookup, decide_True by done. done.
      * intros p Hp. rewrite countOrder_lookup by done.
        rewrite decide_False by apply platformName_not_total.
        assert (Hzero : ordersOn (restaurantName o) p seen = 0).
        { pose proof (ordersOn_le (restaurantName o) p seen). lia. }
        rewrite ordersOn_snoc, Hzero.
        assert (Hnew : ∀ q, q ∈ sp → newRow sp !! platformName q = Some 0).
        { intros q Hq. rewrite newRow_lookup.
          rewrite decide_False by apply platformName_not_total.
          rewrite decide_True; [done|by apply list_elem_of_fmap_2]. }
        rewrite (Hnew _ Hp), (Hnew _ Hplat).
        destruct (decide (platformName p = platformName (platform o))) as [Heq|Hneq].
        -- apply platformName_inj in Heq. subst p. by rewrite decide_True.
        -- rewrite decide_False; [done|]. by intros [_ <-].
      * intros k. rewrite countOrder_lookup by done.
        destruct (decide (k = "total")) as [->|Hk]; [by left|].
        destruct (decide (k = platformName (platform o))) as [->|Hkp].
        -- intros _. right. by exists (platform o).
        -- rewrite newRow_lookup, decide_False by done.
           case_decide as Hin; [|by intros [? ?]].
           apply list_elem_of_fmap in Hin as (p & -> & Hp).
           intros _. right. by exists p.
    + rewrite lookup_insert_ne by done.
      specialize (Hrows r). rewrite ordersOf_snoc, decide_False by done.
      destruct (ownStats h !! r) as [row'|]; [|lia].
      destruct Hrows as (Hpos' & Htot' & Hcells' & Hkeys').
      rewrite Nat.add_0_r. split; [done|]. split; [done|]. split; [|done].
      intros p Hp. rewrite ordersOn_snoc, decide_False by tauto.
      rewrite Nat.add_0_r. by apply Hcells'.
Qed.

Lemma forEach_populate_counted sp (l : list SourcedOrder) :
  Forall (λ o : SourcedOrder,
            ¬ inheritedName (restaurantName o) ∧ platform o ∈ sp) l →
  ∀ h seen, counted sp h seen →
  ∃ h', forEach (populate sp) h l = inr h' ∧ counted sp h' (seen ++ l).
Proof.
  induction 1 as [|o l [Ho Hp] _ IH]; intros h seen Hh; simpl.
  - exists h. by rewrite app_nil_r.
  - destruct (populate_counted sp h seen o Ho Hp Hh) as (h1 & -> & Hh1).
    destruct (IH h1 (seen ++ [o]) Hh1) as (h' & -> & Hh').
    exists h'. split; [done|]. by rewrite <- app_assoc in Hh'.
Qed.

Lemma freshRealm_counted sp : counted sp freshRealm [].
Proof. split; [done|]. intros r. simpl. by rewrite lookup_empty. Qed.

(** One record adds 1 to the cell of its platform and to no other. *)
Lemma sum_indicator (sp : list Platform) (x : Platform) (c : Prop)
    `{Decision c} :
  NoDup sp →
  sum_list_with (λ p, if decide (c ∧ x = p) then 1 else 0) sp
  = if decide (c ∧ x ∈ sp) then 1 else 0.
Proof.
  induction 1 as [|p sp Hp Hnd IH]; simpl.
  - case_decide as Hc; [|done]. destruct Hc as [_ Hc]. by apply elem_of_nil in Hc.
  - rewrite IH.
    destruct (decide (c ∧ x = p)) as [[Hc Hxp]|Hcx];
      destruct (decide (c ∧ x ∈ sp)) as [[Hc' Hin]|Hcin];
      destruct (decide (c ∧ x ∈ p :: sp)) as [[Hc'' Hin']|Hcin'];
      try done; exfalso.
    + subst. done.
    + subst. done.
    + apply Hcin'. split; [done|]. subst. by left.
    + apply Hcin'. split; [done|by right].
    + apply elem_of_cons in Hin' as [Hxp|Hin']; [by apply Hcx|by apply Hcin].
Qed.

Lemma ordersOf_sum (sp : list Platform) r (l : list SourcedOrder) :
  NoDup sp → (∀ o : SourcedOrder, o ∈ l → platform o ∈ sp) →
  sum_list_with (λ p, ordersOn r p l) sp = ordersOf r l.
Proof.
  intros Hnd. induction l as [|o l IH]; intros Hl.
  - unfold ordersOn, ordersOf. simpl. clear. by induction sp.
  - assert (Hstep : ∀ p, ordersOn r p (o :: l)
      = (if decide (restaurantName o = r ∧ platform o = p) then 1 else 0)
        + ordersOn r p l).
    { intros p. unfold ordersOn. rewrite filter_cons. by case_decide. }
    assert (Hsum : ∀ (f g : Platform → nat) k,
      sum_list_with (λ p, f p + g p) k = sum_list_with f k + sum_list_with g k).
    { intros f g k. induction k as [|p k IHk]; simpl; [done|]. rewrite IHk. lia. }
    transitivity (sum_list_with
      (λ p, (if decide (restaurantName o = r ∧ platform o = p) then 1 else 0)
            + ordersOn r p l) sp).
    { clear -Hstep. induction sp as [|p sp IHsp]; simpl; [done|].
      by rewrite Hstep, IHsp. }
    rewrite Hsum, sum_indicator, IH by (done || (intros ? ?; apply Hl; by right)).
    unfold ordersOf. rewrite filter_cons.
    assert (Ho : platform o ∈ sp) by (apply Hl; by left).
    repeat case_decide; simpl; tauto || lia.
Qed.

Section cells.

Variable localeCompare : string → string → Z.

Lemma sortedPlatforms_elem (l : list SourcedOrder) :
  NoDup (sortedPlatforms localeCompare l) ∧
  ∀ p, p ∈ sortedPlatforms localeCompare l
       ↔ p ∈ (λ o : SourcedOrder, platform o) <$> l.
Proof.
  destruct (detectedPlatforms_spec l) as [Hnd Hin].
  unfold sortedPlatforms. split.
  - by rewrite Array_sort_perm.
  - intros p. by rewrite Array_sort_perm.
Qed.

Lemma sortedPlatforms_eq (l : list SourcedOrder) :
  sortedPlatforms localeCompare l
  = filter (λ p, p ∈ (λ o : SourcedOrder, platform o) <$> l) displayOrder.
Proof.
  destruct (detectedPlatforms_spec l) as [Hnd Hin].
  unfold sortedPlatforms.
  rewrite (sorted_by_rank_unique _ (detectedPlatforms l));
    [|done|apply Array_sort_perm|by apply Array_sort_sorted].
  apply list_filter_iff. intros p. apply Hin.
Qed.

(** The summary of records none of which names a restaurant after an
    inherited property: computed, and counted cell by cell. *)
Lemma summaryStats_counted (filtered : list SourcedOrder) :
  Forall (λ o : SourcedOrder, ¬ inheritedName (restaurantName o)) filtered →
  ∃ s, summaryStats localeCompare filtered = inr s ∧
       platforms s = sortedPlatforms localeCompare filtered ∧
       counted (platforms s)
         {| ownStats := stats s; prototypeCounts := [] |} filtered.
Proof.
  intros Hnames. unfold summaryStats, summaryStats_in.
  destruct (forEach_populate_counted (sortedPlatforms localeCompare filtered)
              filtered) with (h := freshRealm) (seen := @nil SourcedOrder)
    as (h & -> & Hproto & Hrows).
  - apply Forall_forall. intros o Ho. split.
    + rewrite Forall_forall in Hnames. by apply Hnames.
    + apply sortedPlatforms_elem.
      by apply (list_elem_of_fmap_2 (λ o : SourcedOrder, platform o)).
  - apply freshRealm_counted.
  - eexists. split; [done|]. split; [done|]. split; [done|]. exact Hrows.
Qed.

(** X16. When no restaurant goes by an inherited property name, the summary
    has, for every restaurant with a filtered record, a row whose total is
    the number of its filtered records and whose cell for each platform in
    view is the number of its filtered records on that platform; the row has
    no cell for another platform, and its cells add up to its total. *)
Theorem crosstab_cells_count_records (filtered : list SourcedOrder) :
  Forall (λ o : SourcedOrder, ¬ inheritedName (restaurantName o)) filtered →
  ∃ s, summaryStats localeCompare filtered = inr s ∧
    ∀ r, 0 < ordersOf r filtered →
      ∃ row, stats s !! r = Some row ∧
        row !! "total" = Some (ordersOf r filtered) ∧
        (∀ p, p ∈ platforms s →
              row !! platformName p = Some (ordersOn r p filtered)) ∧
        (∀ p, p ∉ platforms s → row !! platformName p = None) ∧
        sum_list_with (λ p, default 0 (row !! platformName p)) (platforms s)
        = ordersOf r filtered.
Proof.
  intros Hnames.
  destruct (summaryStats_counted filtered Hnames) as (s & Hs & Hsp & _ & Hrows).
  exists s. split; [done|]. intros r Hr. specialize (Hrows r). simpl in Hrows.
  destruct (stats s !! r) as [row|]; [|lia].
  destruct Hrows as (_ & Htot & Hcells & Hkeys).
  exists row. split; [done|]. split; [done|]. split; [done|]. split.
  - intros p Hp. destruct (row !! platformName p) eqn:Hcell; [|done].
    destruct (Hkeys (platformName p)) as [Ht|(q & Hq & Hpq)]; [by eexists| |].
    + by apply platformName_not_total in Ht.
    + apply platformName_inj in Hpq. by subst.
  - destruct (sortedPlatforms_elem filtered) as [Hnd Hin].
    rewrite <- (ordersOf_sum (platforms s) r filtered).
    + clear -Hcells. induction (platforms s) as [|p sp IH] in Hcells |- *; [done|].
      simpl. rewrite Hcells by by left. simpl. f_equal.
      apply IH. intros q Hq. apply Hcells. by right.
    + by rewrite Hsp.
    + intros o Ho. rewrite Hsp. apply Hin.
      by apply (list_elem_of_fmap_2 (λ o : SourcedOrder, platform o)).
Qed.

(** X17. Under the same condition the summary table of the exported
    document has one row for each restaurant with a filtered record and no
    other: the name, then the count on each platform in view in column
    order, then the total; every row is as long as the header. The rows are
    those of a list of names that holds each such restaurant once. *)
Theorem exported_summary_rows (filtered : list SourcedOrder) :
  Forall (λ o : SourcedOrder, ¬ inheritedName (restaurantName o)) filtered →
  ∃ s, summaryStats localeCompare filtered = inr s ∧
    (∀ cells, cells ∈ summaryBody s ↔
       ∃ r, 0 < ordersOf r filtered ∧
            cells = [r] ++ ((λ p, pretty (ordersOn r p filtered)) <$> platforms s)
                    ++ [pretty (ordersOf r filtered)]) ∧
    Forall (λ cells, length cells = length (summaryHead s)) (summaryBody s) ∧
    ∃ names,
      NoDup names ∧
      (∀ r, r ∈ names ↔ 0 < ordersOf r filtered) ∧
      summaryBody s =
        (λ r, [r] ++ ((λ p, pretty (ordersOn r p filtered)) <$> platforms s)
              ++ [pretty (ordersOf r filtered)]) <$> names.
Proof.
  intros Hnames.
  destruct (summaryStats_counted filtered Hnames) as (s & Hs & Hsp & _ & Hrows).
  exists s. split; [done|]. simpl in Hrows.
  assert (Hrow : ∀ r row, stats s !! r = Some row →
    0 < ordersOf r filtered ∧
    summaryRow s r row
    = [r] ++ ((λ p, pretty (ordersOn r p filtered)) <$> platforms s)
      ++ [pretty (ordersOf r filtered)]).
  { intros r row Hr. specialize (Hrows r). rewrite Hr in Hrows.
    destruct Hrows as (Hpos & Htot & Hcells & _). split; [done|].
    unfold summaryRow. rewrite Htot. simpl. do 2 f_equal.
    apply list_fmap_ext. intros i p Hp.
    rewrite Hcells; [done|]. by eapply list_elem_of_lookup_2. }
  split.
  - intros cells. unfold summaryBody, rows. rewrite list_elem_of_fmap. split.
    + intros ([r row] & -> & Hin). apply elem_of_map_to_list in Hin.
      exists r. simpl. by apply Hrow.
    + intros (r & Hpos & ->). specialize (Hrows r).
      destruct (stats s !! r) as [row|] eqn:Hr; [|lia].
      exists (r, row). split.
      * simpl. symmetry. by apply Hrow.
      * by apply elem_of_map_to_list.
  - split.
    { apply Forall_forall. intros cells. unfold summaryBody, rows.
      intros ([r row] & -> & _)%list_elem_of_fmap.
      unfold summaryRow, summaryHead. simpl.
      by rewrite !length_app, !length_fmap. }
    exists (map_to_list (stats s)).*1. split; [apply NoDup_fst_map_to_list|].
    split.
    + intros r. rewrite list_elem_of_fmap. split.
      * intros ([k row] & -> & Hin). apply elem_of_map_to_list in Hin.
        by apply (Hrow k row).
      * intros Hpos. specialize (Hrows r).
        destruct (stats s !! r) as [row|] eqn:Hr; [|lia].
        exists (r, row). split; [done|]. by apply elem_of_map_to_list.
    + unfold summaryBody, rows. rewrite <- list_fmap_compose.
      apply list_fmap_ext. intros i [r row] Hi. simpl.
      apply Hrow. apply elem_of_map_to_list. by eapply list_elem_of_lookup_2.
Qed.

(** X18. Filtering by restaurant never adds a platform column and keeps the
    columns in their order: the platforms in view under a selection are a
    sublist of those of the unfiltered view. *)
Theorem filter_keeps_platform_columns (all : list SourcedOrder)
    (selectedRestaurants : list string) :
  sortedPlatforms localeCompare (filteredOrders all selectedRestaurants)
  `sublist_of` sortedPlatforms localeCompare all.
Proof.
  rewrite !sortedPlatforms_eq.
  assert (Hsub : ∀ p,
    p ∈ (λ o : SourcedOrder, platform o) <$> filteredOrders all selectedRestaurants →
    p ∈ (λ o : SourcedOrder, platform o) <$> all).
  { intros p (o & -> & Ho)%list_elem_of_fmap.
    apply (list_elem_of_fmap_2 (λ o : SourcedOrder, platform o)).
    unfold filteredOrders in Ho. case_bool_decide; [done|].
    by apply list_elem_of_filter in Ho as [_ ?]. }
  rewrite <- (list_filter_filter_l _ (λ p, p ∈ (λ o : SourcedOrder, platform o) <$> all))
    by exact Hsub.
  apply sublist_filter.
Qed.

End cells.

(** X19. The exported main table follows the filter: it has one row of six
    cells for each filtered record, in order, as many as the total card
    shows; under a selection the restaurant cell of every row is a selected
    name; the customer cell is the customer's name, or "N/A" when that is
    empty, and so never blank; and the document carries a filter line
    exactly when a selection is active. *)
Theorem exported_rows_follow_the_filter (all : list SourcedOrder)
    (selectedRestaurants : list string) :
  let filtered := filteredOrders all selectedRestaurants in
  length (tableBody filtered) = (totalCard all filtered selectedRestaurants).1 ∧
  (∀ i (o : SourcedOrder), filtered !! i = Some o →
     ∃ customer,
       tableBody filtered !! i
       = Some [platformName (platform o); orderNumber o; restaurantName o;
               date o; time o; customer] ∧
       customer = (if decide (customerName o = "") then "N/A"
                   else customerName o) ∧
       customer ≠ "" ∧
       (customerName o ≠ "" → customer = customerName o) ∧
       (selectedRestaurants ≠ [] → restaurantName o ∈ selectedRestaurants)) ∧
  (filterLine selectedRestaurants = None ↔ selectedRestaurants = []).
Proof.
  intros filtered. split; [|split].
  - unfold tableBody, totalCard. simpl. apply length_fmap.
  - intros i o Hi. exists (orElse (customerName o) "N/A").
    unfold tableBody. rewrite list_lookup_fmap, Hi. simpl.
    split; [done|]. split; [by destruct (customerName o)|].
    split; [by destruct (customerName o)|].
    split; [by destruct (customerName o)|].
    intros Hsel. apply list_elem_of_lookup_2 in Hi.
    unfold filtered, filteredOrders in Hi.
    rewrite bool_decide_false in Hi by by destruct selectedRestaurants.
    by apply list_elem_of_filter in Hi as [? _].
  - unfold filterLine. destruct selectedRestaurants as [|r sel]; [done|].
    case_bool_decide as Hlen; [done|]. simpl in Hlen. lia.
Qed.

(** ** Outcomes of a batch in the results table *)

Section batch_view.

Context {World Client : Type}.
Variable API_KEY : option string.
Variable GoogleGenAI : string → JsError + Client.
Variable fileToBase64 : File → World → (JsError + string) * World.
Variable generateContent :
  Client → string → World → (JsError + option string) * World.
Variable JSON_parse : string → JsError + list OrderError.
Variable compareStrings : string → string → Z.

Local Abbreviation runBatch :=
  (handleFilesSelected API_KEY GoogleGenAI fileToBase64 generateContent JSON_parse).

(** X20. Every record the table shows after a batch carries, as its source
    file, the name of one of the files of that batch. *)
Theorem records_name_a_file_of_the_batch (files : list File) (m : Machine World)
    (o : SourcedOrder) :
  o ∈ allOrders (results (app (runBatch files m).2)) →
  ∃ file, file ∈ files ∧ sourceFile o = name file.
Proof.
  destruct (batch_history API_KEY GoogleGenAI fileToBase64 generateContent
              JSON_parse files m) as (_ & HF & _).
  simpl in HF. unfold allOrders. case_bool_decide; [by intros ?%elem_of_nil|].
  intros (r & Ho & Hr)%list_elem_of_bind.
  apply list_elem_of_fmap in Ho as (o' & -> & _). simpl.
  apply list_elem_of_lookup in Hr as [i Hi].
  destruct (Forall2_lookup_r _ _ _ _ _ HF Hi) as (file & Hfile & Hname).
  exists file. split; [by eapply list_elem_of_lookup_2|done].
Qed.


End batch_view.

(** ** The properties above on the sample inputs *)

(** A report sent to a service that answers without text. *)
Lemma empty_response_is_an_empty_success_witness :
  results (app (handleFilesSelected (Some "key") Sample.GoogleGenAI
                  Sample.fileToBase64 Scenario.silentService Sample.JSON_parse
                  [Sample.reportA] (startup tt)).2)
  = [successOutcome Sample.reportA []].
Proof.
  apply (empty_response_is_an_empty_success (Some "key") Sample.GoogleGenAI
           Sample.fileToBase64 Scenario.silentService Sample.JSON_parse
           Sample.reportA (startup tt) "key" "key" "JVBERi0xLjQ=" tt None tt);
    reflexivity.
Defined.

(** The empty report, which the sample reader refuses. *)
Lemma unreadable_file_never_reaches_the_service_witness :
  results (app (handleFilesSelected (Some "key") Sample.GoogleGenAI
                  Sample.fileToBase64 Sample.generateContent Sample.JSON_parse
                  [Sample.reportB] (startup tt)).2)
  = [errorOutcome Sample.reportB].
Proof.
  apply (unreadable_file_never_reaches_the_service (Some "key")
           Sample.GoogleGenAI Sample.fileToBase64 Sample.generateContent
           Sample.JSON_parse Sample.reportB (startup tt) "key" "key"
           {| message := "empty file" |} tt);
    reflexivity.
Defined.

(** The view while the only report of a batch is being processed. *)
Lemma views_through_a_batch_witness :
  (∃ line,
     App_render (app Scenario.running) =
       {| isProcessing := true; processingIndicator := Some line;
          resultsTable := None |} ∧
     (line = progress (app (startup tt)) ∨
      ∃ i file, [Sample.reportA] !! i = Some file ∧
                line = progressLabel i (length [Sample.reportA]) file)) ∨
  App_render (app Scenario.running) =
    {| isProcessing := false; processingIndicator := None;
       resultsTable :=
         Some (results (app (sampleBatch [Sample.reportA] (startup tt)).2)) |}.
Proof.
  apply (views_through_a_batch (Some "key") Sample.GoogleGenAI
           Sample.fileToBase64 Sample.generateContent Sample.JSON_parse
           [Sample.reportA] (startup tt) (app Scenario.running)).
  vm_compute. do 2 right. left.
Defined.

(** The state in which the first report of a batch is being processed. *)
Lemma upload_zone_is_inert_while_processing_witness :
  handleClick (isProcessing (App_render (app Scenario.running))) = false.
Proof.
  destruct (upload_zone_is_inert_while_processing (Some "key") Sample.GoogleGenAI
              Sample.fileToBase64 Sample.generateContent Sample.JSON_parse
              [Sample.reportA] (startup tt) (app Scenario.running))
    as [Hdone|(_ & Hclick & _)].
  - vm_compute. do 2 right. left.
  - discriminate Hdone.
  - exact Hclick.
Defined.

(** A text file and a report dropped together on the first page. *)
Lemma drop_starts_a_batch_of_the_pdfs_witness :
  fileName <$> results (app (App_drop (Some "key") Sample.GoogleGenAI
                               Sample.fileToBase64 Sample.generateContent
                               Sample.JSON_parse
                               (Some [Sample.notes; Sample.reportA])
                               (startup tt)).2)
  = ["a.pdf"].
Proof.
  destruct (drop_starts_a_batch_of_the_pdfs (Some "key") Sample.GoogleGenAI
              Sample.fileToBase64 Sample.generateContent Sample.JSON_parse
              [Sample.notes; Sample.reportA] (startup tt))
    as (_ & _ & Hnames & _).
  - discriminate.
  - discriminate.
  - exact Hnames.
Defined.

(** Two selections of the same restaurants, clicked in different orders. *)
Lemma filteredOrders_reads_a_set_witness :
  filteredOrders (allOrders Sample.namedToString) ["toString"; "Almada Fórum"]
  = filteredOrders (allOrders Sample.namedToString)
      ["Almada Fórum"; "toString"; "Almada Fórum"].
Proof.
  apply filteredOrders_reads_a_set. intros r.
  rewrite !elem_of_cons, !elem_of_nil. tauto.
Defined.

(** One of the two filter buttons selected. *)
Lemma selection_from_buttons_is_never_empty_witness :
  tableContents Scenario.records (filteredOrders Scenario.records ["Alfragide"])
  = inr (filteredOrders Scenario.records ["Alfragide"]).
Proof.
  destruct (selection_from_buttons_is_never_empty Scenario.byBytes
              Scenario.records ["Alfragide"]) as [(_ & _ & Hshown)|[Hnone _]].
  - intros r ->%list_elem_of_singleton.
    refine (bool_decide_unpack _ _). vm_compute. exact I.
  - exact Hshown.
  - discriminate Hnone.
Defined.

(** No sample restaurant goes by an inherited name. *)
Lemma Scenario_records_ordinary :
  Forall (λ o : SourcedOrder, ¬ inheritedName (restaurantName o))
    Scenario.records.
Proof.
  repeat constructor; intros [Hproto|Hfun]; try discriminate Hproto;
    apply (bool_decide_pack _) in Hfun; vm_compute in Hfun; exact Hfun.
Defined.

(** Miraflores has three records, two of them on Bolt. *)
Lemma crosstab_cells_count_records_witness :
  ∃ s row,
    summaryStats Scenario.byBytes Scenario.records = inr s ∧
    stats s !! "Miraflores" = Some row ∧
    row !! "total" = Some 3 ∧ row !! "Bolt" = Some 2.
Proof.
  destruct (crosstab_cells_count_records Scenario.byBytes Scenario.records
              Scenario_records_ordinary) as (s & Hs & Hrows).
  destruct (Hrows "Miraflores") as (row & Hrow & Htot & Hcells & _).
  { vm_compute. lia. }
  exists s, row. split; [exact Hs|]. split; [exact Hrow|]. split; [exact Htot|].
  apply (Hcells Bolt). injection Hs as <-.
  refine (bool_decide_unpack _ _). vm_compute. exact I.
Defined.

(** The exported row of Alfragide. *)
Lemma exported_summary_rows_witness :
  ∃ s, summaryStats Scenario.byBytes Scenario.records = inr s ∧
       ["Alfragide"; "1"; "0"; "0"; "1"] ∈ summaryBody s.
Proof.
  destruct (exported_summary_rows Scenario.byBytes Scenario.records
              Scenario_records_ordinary) as (s & Hs & Hbody & _).
  exists s. split; [exact Hs|]. apply Hbody. exists "Alfragide".
  split; [vm_compute; lia|]. injection Hs as <-. reflexivity.
Defined.

(** The records of the two sample reports. *)
Lemma records_name_a_file_of_the_batch_witness :
  ∃ file, file ∈ [Sample.reportA; Sample.reportB] ∧ "a.pdf" = name file.
Proof.
  apply (records_name_a_file_of_the_batch (Some "key") Sample.GoogleGenAI
           Sample.fileToBase64 Sample.generateContent Sample.JSON_parse
           [Sample.reportA; Sample.reportB] (startup tt)
           {| order := Sample.almada "2E955" Glovo; sourceFile := "a.pdf" |}).
  refine (bool_decide_unpack _ _). vm_compute. exact I.
Defined.

